(** * Neighborhood Components Analysis driver and PCA whitening (mlpack)

    A shallow embedding of

    - [src/mlpack/methods/nca/nca_main.cpp]  ([mlpackMain]), and
    - [src/mlpack/core/data/scaler_methods/pcawhitening.hpp]
      ([PcaWhitening::Transform], [PcaWhitening::InverseTransform]),

    together with the properties of these two files that the specification
    states.  [arma::mat] is [Mat<double>]: in the driver its elements are
    IEEE-754 binary64 numbers (Rocq's primitive floats).  [PcaWhitening] is a
    template over the matrix type; it is written once over a class of
    scalars and studied over the real numbers, where the specification
    speaks of exact arithmetic, and run over binary64 on sample data. *)

From Stdlib Require Import ZArith List String Bool Lia Floats Reals Lra.
From Stdlib Require Import FunctionalExtensionality.
Import ListNotations.

Set Implicit Arguments.
(* A decimal literal of the source denotes the closest double, as in C++. *)
Set Warnings "-inexact-float".

Open Scope string_scope.
Open Scope list_scope.
Open Scope nat_scope.

(** ** Scalars *)

(** The element type [eT] of an Armadillo matrix, with the operations the two
    source files apply to it. *)
Class Scalar (T : Type) : Type := {
  zero : T;
  one : T;
  add : T -> T -> T;
  sub : T -> T -> T;
  mul : T -> T -> T;
  div : T -> T -> T;
  sqrt : T -> T;
  of_nat : nat -> T
}.

#[export] Instance double_Scalar : Scalar float := {|
  zero := PrimFloat.zero;
  one := PrimFloat.one;
  add := PrimFloat.add;
  sub := PrimFloat.sub;
  mul := PrimFloat.mul;
  div := PrimFloat.div;
  sqrt := PrimFloat.sqrt;
  of_nat := fun n => PrimFloat.of_uint63 (Uint63.of_Z (Z.of_nat n))
|}.

#[export] Instance R_Scalar : Scalar R := {|
  zero := 0%R;
  one := 1%R;
  add := Rplus;
  sub := Rminus;
  mul := Rmult;
  div := Rdiv;
  sqrt := R_sqrt.sqrt;
  of_nat := INR
|}.

(** ** Machine integers *)

(** [size_t] is a 64-bit unsigned integer; a value of a wider or signed type
    converts to it modulo 2^64. *)
Definition SIZE_MAX : Z := 2 ^ 64 - 1.

Definition to_size_t (z : Z) : Z := z mod 2 ^ 64.

(** [(size_t) x] for a [double] [x] whose truncated value is a [size_t]: the
    fractional part is discarded.  [None] when the truncated value is not a
    [size_t] (negative, too large, infinite or NaN): there C++ leaves the
    result of the conversion open. *)
Definition size_t_of_double (x : float) : option Z :=
  match Prim2SF x with
  | S754_zero _ => Some 0%Z
  | S754_finite s m e =>
      let t := if (0 <=? e)%Z then Z.shiftl (Zpos m) e
               else Z.shiftr (Zpos m) (- e) in
      if s then (if (t =? 0)%Z then Some 0%Z else None)
      else if (t <=? SIZE_MAX)%Z then Some t else None
  | S754_infinity _ => None
  | S754_nan => None
  end.

(** ** Armadillo matrices *)

Module Arma.

(** A dense matrix: its shape and its elements, [elem m r c] being
    [m(r, c)].  Only [elem m r c] with [r < n_rows m] and [c < n_cols m]
    is an element of the matrix. *)
Record Mat (T : Type) : Type := mkMat {
  n_rows : nat;
  n_cols : nat;
  elem : nat -> nat -> T
}.

Arguments mkMat {T} _ _ _.

Section Generic.
Context {T : Type} `{Scalar T}.

Definition n_elem (m : Mat T) : nat := n_rows m * n_cols m.

(** Two matrices are the same when shapes and elements agree. *)
Definition mat_eq (a b : Mat T) : Prop :=
  n_rows a = n_rows b /\ n_cols a = n_cols b /\
  forall r c, r < n_rows a -> c < n_cols a -> elem a r c = elem b r c.

(** [arma::mat m;] : the default constructor gives the empty matrix. *)
Definition empty : Mat T := mkMat 0 0 (fun _ _ => zero).

(** [m.eye()] with no argument: the main diagonal is set to one, the rest
    to zero, and the size of [m] is kept. *)
Definition eye (m : Mat T) : Mat T :=
  mkMat (n_rows m) (n_cols m) (fun r c => if r =? c then one else zero).

(** [m.eye(r, c)] : resized first (the identity when [r = c]). *)
Definition eye_sized (r c : nat) : Mat T :=
  mkMat r c (fun i j => if i =? j then one else zero).

(** [m.shed_row(r)], for [r < n_rows m]. *)
Definition shed_row (m : Mat T) (r : nat) : Mat T :=
  mkMat (n_rows m - 1) (n_cols m)
        (fun i j => if i <? r then elem m i j else elem m (S i) j).

(** [diagmat(v)] for a vector [v]: the square matrix with [v] on its
    diagonal. *)
Definition diagmat (v : Mat T) : Mat T :=
  mkMat (n_elem v) (n_elem v)
        (fun i j => if i =? j then elem v i 0 else zero).

(** Element-wise operations on a matrix and between two matrices of one
    shape. *)
Definition map1 (f : T -> T) (a : Mat T) : Mat T :=
  mkMat (n_rows a) (n_cols a) (fun i j => f (elem a i j)).

Definition map2 (f : T -> T -> T) (a b : Mat T) : Mat T :=
  mkMat (n_rows a) (n_cols a) (fun i j => f (elem a i j) (elem b i j)).

(** [a.t()] *)
Definition trans (a : Mat T) : Mat T :=
  mkMat (n_cols a) (n_rows a) (fun i j => elem a j i).

(** The sum of [f 0 .. f (n-1)], accumulated from the left. *)
Fixpoint accu (n : nat) (f : nat -> T) : T :=
  match n with
  | O => zero
  | S k => add (accu k f) (f k)
  end.

(** [a * b], for [n_cols a = n_rows b]. *)
Definition times (a b : Mat T) : Mat T :=
  mkMat (n_rows a) (n_cols b)
        (fun i j => accu (n_cols a) (fun k => mul (elem a i k) (elem b k j))).

(** [arma::mean(a, 1)] : the mean of each row, a column vector; it has no
    column when [a] has none. *)
Definition mean_rows (a : Mat T) : Mat T :=
  mkMat (n_rows a) (if n_cols a =? 0 then 0 else 1)
        (fun i _ => div (accu (n_cols a) (fun k => elem a i k))
                        (of_nat (n_cols a))).

(** [a.each_col() - v] and [a.each_col() + v] : [v] has to be a column
    vector with as many rows as [a], otherwise Armadillo raises an
    error. *)
Definition each_col (f : T -> T -> T) (a v : Mat T) : option (Mat T) :=
  if (n_rows v =? n_rows a) && (n_cols v =? 1) then
    Some (mkMat (n_rows a) (n_cols a)
                (fun i j => f (elem a i j) (elem v i 0)))
  else None.

(** A matrix given by its rows (for concrete data). *)
Definition of_rows (rows : list (list T)) : Mat T :=
  mkMat (List.length rows) (List.length (hd [] rows))
        (fun i j => nth j (nth i rows []) zero).

End Generic.

(** Operations that compare elements, on matrices of doubles. *)
Section Doubles.

(** The running maximum (minimum) of row [i] over columns [0 .. k], as
    [arma::max(m, 1)] computes it: it starts from column 0 and takes a
    later element when it compares greater (smaller). *)
Fixpoint row_max (m : Mat float) (i k : nat) : float :=
  match k with
  | O => elem m i 0
  | S k' => let best := row_max m i k' in
            let v := elem m i k in
            if PrimFloat.ltb best v then v else best
  end.

Fixpoint row_min (m : Mat float) (i k : nat) : float :=
  match k with
  | O => elem m i 0
  | S k' => let best := row_min m i k' in
            let v := elem m i k in
            if PrimFloat.ltb v best then v else best
  end.

(** [arma::max(m, 1)] and [arma::min(m, 1)] : one value per row; the result
    has no column when [m] has none. *)
Definition max_rows (m : Mat float) : Mat float :=
  mkMat (n_rows m) (if n_cols m =? 0 then 0 else 1)
        (fun i _ => row_max m i (n_cols m - 1)).

Definition min_rows (m : Mat float) : Mat float :=
  mkMat (n_rows m) (if n_cols m =? 0 then 0 else 1)
        (fun i _ => row_min m i (n_cols m - 1)).

End Doubles.

End Arma.

Import Arma.


(** ** The command-line parameters of the program *)

(** The parameters declared by the [PARAM_*] macros of [nca_main.cpp].  A
    parameter with a value holds [Some v] when it was passed and [None]
    otherwise; a flag is [true] when it was passed. *)
Module CLI.

Record Params : Type := mkParams {
  input : Mat float;
  output : bool;
  labels : option (list Z);
  optimizer : option string;
  normalize : bool;
  max_iterations : option Z;
  tolerance : option float;
  step_size : option float;
  linear_scan : bool;
  batch_size : option Z;
  num_basis : option Z;
  armijo_constant : option float;
  wolfe : option float;
  max_line_search_trials : option Z;
  min_step : option float;
  max_step : option float;
  seed : option Z
}.

Definition passed {A : Type} (o : option A) : bool :=
  match o with Some _ => true | None => false end.

Definition value {A : Type} (default : A) (o : option A) : A :=
  match o with Some v => v | None => default end.

(** [CLI::HasParam(name)] *)
Definition HasParam (p : Params) (name : string) : bool :=
  if (name =? "input")%string then true
  else if (name =? "output")%string then output p
  else if (name =? "labels")%string then passed (labels p)
  else if (name =? "optimizer")%string then passed (optimizer p)
  else if (name =? "normalize")%string then normalize p
  else if (name =? "max_iterations")%string then passed (max_iterations p)
  else if (name =? "tolerance")%string then passed (tolerance p)
  else if (name =? "step_size")%string then passed (step_size p)
  else if (name =? "linear_scan")%string then linear_scan p
  else if (name =? "batch_size")%string then passed (batch_size p)
  else if (name =? "num_basis")%string then passed (num_basis p)
  else if (name =? "armijo_constant")%string then passed (armijo_constant p)
  else if (name =? "wolfe")%string then passed (wolfe p)
  else if (name =? "max_line_search_trials")%string then passed (max_line_search_trials p)
  else if (name =? "min_step")%string then passed (min_step p)
  else if (name =? "max_step")%string then passed (max_step p)
  else if (name =? "seed")%string then passed (seed p)
  else false.

(** [CLI::GetParam<int>(name)], with the defaults of the [PARAM_INT_IN]
    declarations. *)
Definition GetParam_int (p : Params) (name : string) : Z :=
  if (name =? "max_iterations")%string then value 500000%Z (max_iterations p)
  else if (name =? "batch_size")%string then value 50%Z (batch_size p)
  else if (name =? "num_basis")%string then value 5%Z (num_basis p)
  else if (name =? "max_line_search_trials")%string then
    value 50%Z (max_line_search_trials p)
  else if (name =? "seed")%string then value 0%Z (seed p)
  else 0%Z.

(** [CLI::GetParam<double>(name)], with the defaults of the
    [PARAM_DOUBLE_IN] declarations. *)
Definition GetParam_double (p : Params) (name : string) : float :=
  if (name =? "tolerance")%string then value 1e-7%float (tolerance p)
  else if (name =? "step_size")%string then value 0.01%float (step_size p)
  else if (name =? "armijo_constant")%string then value 1e-4%float (armijo_constant p)
  else if (name =? "wolfe")%string then value 0.9%float (wolfe p)
  else if (name =? "min_step")%string then value 1e-20%float (min_step p)
  else if (name =? "max_step")%string then value 1e20%float (max_step p)
  else 0%float.

(** [CLI::GetParam<string>(name)] *)
Definition GetParam_string (p : Params) (name : string) : string :=
  if (name =? "optimizer")%string then value "sgd" (optimizer p) else "".

(** [CLI::GetParam<arma::Row<size_t>>(name)] *)
Definition GetParam_urow (p : Params) (name : string) : list Z :=
  if (name =? "labels")%string then value [] (labels p) else [].

End CLI.

(** ** Effects of the driver *)

(** The optimizers of [NCA<LMetric<2>>] and [NCA<LMetric<2>, L_BFGS>] and
    the settings [mlpackMain] writes into them. *)
Module SGD.
Record t : Type := mk {
  StepSize : float;
  MaxIterations : Z;
  Tolerance : float;
  Shuffle : bool;
  BatchSize : Z
}.
End SGD.

Module L_BFGS.
Record t : Type := mk {
  NumBasis : Z;
  MaxIterations : Z;
  ArmijoConstant : float;
  Wolfe : float;
  MinGradientNorm : float;
  MaxLineSearchTrials : Z;
  MinStep : float;
  MaxStep : float
}.
End L_BFGS.

Inductive Optimizer : Type :=
| WithSGD (s : SGD.t)
| WithL_BFGS (s : L_BFGS.t).

(** What the program writes to [Log::Info], [Log::Warn] and [Log::Fatal]. *)
Inductive Level : Type := Info | Warn | Fatal.

Inductive Message : Type :=
| Ignored (param reason : string)
| NonePassed (params : list string) (reason : string)
| NotInSet (param value reason : string)
| LabelCount (n_labels n_points : nat)
| Text (s : string).

(** What a run does, in the order in which it does it. *)
Inductive Event : Type :=
| Seeded (s : Z)
| Logged (l : Level) (m : Message)
| Constructed (sgd : bool) (data : Mat float) (labels : list Z)
| LearnDistance_called (o : Optimizer) (distance : Mat float)
| Saved (distance : Mat float).

(** A run ends normally or by an exception, [std::runtime_error] from
    [Log::Fatal] or [std::logic_error] from a check of Armadillo; or it does
    not end, when a call it makes does not return. *)
Inductive Exception : Type := RuntimeError | LogicError.

Inductive Outcome (A : Type) : Type :=
| Done (a : A)
| Thrown (e : Exception)
| Hangs.

Arguments Done {A} _.
Arguments Thrown {A} _.
Arguments Hangs {A}.

(** The state a run acts on: what it has done so far and the seed of the
    process-wide random generator. *)
Record World : Type := mkWorld {
  events : list Event;
  generator : option Z
}.

Definition start : World := mkWorld [] None.

Definition M (A : Type) : Type := World -> World * Outcome A.

Definition ret {A : Type} (a : A) : M A := fun w => (w, Done a).

Definition bind {A B : Type} (m : M A) (k : A -> M B) : M B :=
  fun w => match m w with
           | (w', Done a) => k a w'
           | (w', Thrown e) => (w', Thrown e)
           | (w', Hangs) => (w', Hangs)
           end.

Definition throw {A : Type} (e : Exception) : M A := fun w => (w, Thrown e).

Definition hang {A : Type} : M A := fun w => (w, Hangs).

Definition emit (e : Event) : M unit :=
  fun w => (mkWorld (events w ++ [e]) (generator w), Done tt).

Definition get_generator : M (option Z) := fun w => (w, Done (generator w)).

Declare Scope run_scope.
Delimit Scope run_scope with run.
Notation "x <- m ;; k" := (bind m (fun x => k))
  (at level 61, m at next level, right associativity) : run_scope.
Notation "m ;; k" := (bind m (fun _ => k))
  (at level 61, right associativity) : run_scope.
Open Scope run_scope.

(** [math::RandomSeed(s)] *)
Definition RandomSeed (s : Z) : M unit :=
  fun w => (mkWorld (events w ++ [Seeded s]) (Some s), Done tt).

(** [Log::Info << ... << endl] and [Log::Warn << ... << endl] *)
Definition Log (l : Level) (m : Message) : M unit := emit (Logged l m).

(** Modelled from the spec: [Log::Fatal] (mlpack/core/util/log.hpp) is not
    among the sources.  A configuration error is "fatal, aborts before
    optimization": the message is written and the run ends there. *)
Definition Log_Fatal {A : Type} (m : Message) : M A :=
  emit (Logged Fatal m) ;; throw RuntimeError.

(** Modelled from the spec: [RequireAtLeastOnePassed]
    (mlpack/core/util/param_checks.hpp) is not among the sources.  "Absence
    of any output request is permitted but should be flagged to the
    caller." *)
Definition RequireAtLeastOnePassed (p : CLI.Params) (names : list string)
    (fatal : bool) (reason : string) : M unit :=
  if existsb (CLI.HasParam p) names then ret tt
  else if fatal then Log_Fatal (NonePassed names reason)
  else Log Warn (NonePassed names reason).

(** Modelled from the spec: [RequireParamInSet]
    (mlpack/core/util/param_checks.hpp) is not among the sources.  An
    "unknown optimizer name" is a configuration error, fatal when the call
    asks for it. *)
Definition RequireParamInSet (p : CLI.Params) (name : string)
    (set : list string) (fatal : bool) (reason : string) : M unit :=
  let v := CLI.GetParam_string p name in
  if existsb (String.eqb v) set then ret tt
  else if fatal then Log_Fatal (NotInSet name v reason)
  else Log Warn (NotInSet name v reason).

(** Modelled from the spec: [ReportIgnoredParam]
    (mlpack/core/util/param_checks.hpp) is not among the sources.  "The
    system should surface a non-fatal notice identifying each ignored
    option": a notice for the parameter, when it was passed. *)
Definition ReportIgnoredParam (p : CLI.Params) (name reason : string)
    : M unit :=
  if CLI.HasParam p name then Log Warn (Ignored name reason) else ret tt.

(** The position of [x] in [l]. *)
Fixpoint index_of (x : Z) (l : list Z) : option nat :=
  match l with
  | [] => None
  | y :: l' => if (x =? y)%Z then Some 0
               else option_map S (index_of x l')
  end.

(** Modelled from the spec: [data::NormalizeLabels]
    (mlpack/core/data/normalize_labels.hpp) is not among the sources.  It
    "maps arbitrary label values to a dense zero-based integer range":
    each distinct label gets the next free index, in order of appearance;
    [mappings] lists the labels that have an index. *)
Fixpoint NormalizeLabels_from (mappings : list Z) (raw : list Z)
    : list Z * list Z :=
  match raw with
  | [] => ([], mappings)
  | x :: raw' =>
      match index_of x mappings with
      | Some i => let (ls, ms) := NormalizeLabels_from mappings raw' in
                  (Z.of_nat i :: ls, ms)
      | None => let (ls, ms) := NormalizeLabels_from (mappings ++ [x]) raw' in
                (Z.of_nat (List.length mappings) :: ls, ms)
      end
  end.

(** Modelled from the spec: [data::NormalizeLabels(rawLabels, labels,
    mappings)], as above: the labels and the mappings. *)
Definition NormalizeLabels (rawLabels : list Z) : list Z * list Z :=
  NormalizeLabels_from [] rawLabels.


(** ** The driver: [mlpackMain] of nca_main.cpp *)

Section Driver.

(** What [(size_t) x] leaves in the variable when the truncated value of [x]
    is not a [size_t].  C++ leaves the result open and the program has no
    check: the compiled program goes on with what the conversion of the
    machine gives, a function of [x]. *)
Variable cast : float -> Z.

(** Modelled from the spec: [NCA::LearnDistance] (nca.hpp) and the
    optimizers it runs are not among the sources.  "LearnDistance
    (initialTransform) -> finalTransform" runs the chosen optimizer, whose
    objective is a "pure function of (transform, indices, dataset, labels)",
    in a core that is "single-threaded and synchronous": whether it returns,
    and the matrix it then leaves in [distance], is a function of the seed of
    the process-wide random generator, the settings of the optimizer, the
    dataset, the labels and the starting matrix.  [None] when it does not
    return: with [max_iterations] 0 the optimizer is "unbounded", and the
    program's description says that it "may actually never converge". *)
Variable LearnDistance :
  option Z -> Optimizer -> Mat float -> list Z -> Mat float
  -> option (Mat float).

(** Lines 143-146: seeding the random generator. *)
Definition seed_generator (p : CLI.Params) (now : Z) : M unit :=
  if negb (CLI.GetParam_int p "seed" =? 0)%Z then
    RandomSeed (to_size_t (CLI.GetParam_int p "seed"))
  else
    RandomSeed (to_size_t now).

(** Lines 154-171: warnings on unused parameters. *)
Definition warn_unused (p : CLI.Params) (optimizerType : string) : M unit :=
  if (optimizerType =? "sgd")%string then
    ReportIgnoredParam p "num_basis" "L-BFGS optimizer is not being used" ;;
    ReportIgnoredParam p "armijo_constant"
      "L-BFGS optimizer is not being used" ;;
    ReportIgnoredParam p "wolfe" "L-BFGS optimizer is not being used" ;;
    ReportIgnoredParam p "max_line_search_trials"
      "L-BFGS optimizer is not being used" ;;
    ReportIgnoredParam p "min_step" "L-BFGS optimizer is not being used" ;;
    ReportIgnoredParam p "max_step" "L-BFGS optimizer is not being used" ;;
    ReportIgnoredParam p "batch_size" "L-BFGS optimizer is not being used"
  else if (optimizerType =? "lbfgs")%string then
    ReportIgnoredParam p "step_size" "SGD optimizer is not being used" ;;
    ReportIgnoredParam p "linear_scan" "SGD optimizer is not being used" ;;
    ReportIgnoredParam p "batch_size" "SGD optimizer is not being used"
  else ret tt.

(** Line 205: [(size_t) x], a [size_t] in every case. *)
Definition cast_size_t (x : float) : Z :=
  match size_t_of_double x with
  | Some l => l
  | None => to_size_t (cast x)
  end.

(** Lines 204-205: [rawLabels[i] = (size_t) data(r, i)] for [i < n]. *)
Fixpoint labels_of_row (data : Mat float) (r n : nat) : list Z :=
  match n with
  | O => []
  | S i => labels_of_row data r i ++ [cast_size_t (elem data r i)]
  end.

(** Lines 189-208: the labels, separate or as the last row of the data.
    With no row, [data(data.n_rows - 1, i)] and [data.shed_row(data.n_rows -
    1)] are out of bounds. *)
Definition load_labels (p : CLI.Params) (data : Mat float)
    : M (Mat float * list Z) :=
  if CLI.HasParam p "labels" then
    let rawLabels := CLI.GetParam_urow p "labels" in
    (if negb (List.length rawLabels =? n_cols data) then
       Log_Fatal (LabelCount (List.length rawLabels) (n_cols data))
     else ret tt) ;;
    ret (data, rawLabels)
  else
    Log Info (Text "Using last column of input dataset as labels.") ;;
    if n_rows data =? 0 then throw LogicError
    else
      let rawLabels := labels_of_row data (n_rows data - 1) (n_cols data) in
      ret (shed_row data (n_rows data - 1), rawLabels).

(** Lines 222-224: a range of 0 is replaced by 1. *)
Definition fix_range (r : float) : float :=
  if PrimFloat.eqb r 0%float then 1%float else r.

(** Lines 215-233: the starting point of the optimization.  [arma::max(data,
    1) - arma::min(data, 1)] has no column when [data] has none, and is then
    no [arma::vec] unless it has no row either. *)
Definition initial_distance (normalize : bool) (data : Mat float)
    : M (Mat float) :=
  let distance : Mat float := empty in
  if normalize then
    if (n_cols data =? 0) && negb (n_rows data =? 0) then throw LogicError
    else
      let ranges := map2 PrimFloat.sub (max_rows data) (min_rows data) in
      let ranges := map1 fix_range ranges in
      let distance := diagmat (map1 (PrimFloat.div 1%float) ranges) in
      Log Info (Text "Using normalized starting point for optimization.") ;;
      ret distance
  else
    ret (eye distance).

(** Lines 245 and 259: [nca.LearnDistance(distance)]; the run goes on when
    the call returns. *)
Definition call_LearnDistance (nca : Optimizer) (data : Mat float)
    (labels : list Z) (distance : Mat float) : M (Mat float) :=
  g <- get_generator ;;
  match LearnDistance g nca data labels distance with
  | Some learned => ret learned
  | None => hang
  end.

(** Lines 235-260: the [NCA] object is created and the optimization run. *)
Definition optimize (optimizerType : string) (stepSize : float)
    (maxIterations : Z) (tolerance : float) (shuffle : bool) (numBasis : Z)
    (armijoConstant wolfe : float) (maxLineSearchTrials : Z)
    (minStep maxStep : float) (batchSize : Z)
    (data : Mat float) (labels : list Z) (distance : Mat float)
    : M (Mat float) :=
  if (optimizerType =? "sgd")%string then
    emit (Constructed true data labels) ;;
    let nca := WithSGD (SGD.mk stepSize maxIterations tolerance shuffle
                               batchSize) in
    emit (LearnDistance_called nca distance) ;;
    call_LearnDistance nca data labels distance
  else if (optimizerType =? "lbfgs")%string then
    emit (Constructed false data labels) ;;
    let nca := WithL_BFGS (L_BFGS.mk (to_size_t numBasis) maxIterations
                             armijoConstant wolfe tolerance
                             (to_size_t maxLineSearchTrials)
                             minStep maxStep) in
    emit (LearnDistance_called nca distance) ;;
    call_LearnDistance nca data labels distance
  else ret distance.

Definition mlpackMain (p : CLI.Params) (now : Z) : M unit :=
  seed_generator p now ;;
  RequireAtLeastOnePassed p ["output"] false "no output will be saved" ;;
  let optimizerType := CLI.GetParam_string p "optimizer" in
  RequireParamInSet p "optimizer" ["sgd"; "lbfgs"] true
    "unknown optimizer type" ;;
  warn_unused p optimizerType ;;
  let stepSize := CLI.GetParam_double p "step_size" in
  let maxIterations := to_size_t (CLI.GetParam_int p "max_iterations") in
  let tolerance := CLI.GetParam_double p "tolerance" in
  let normalize := CLI.HasParam p "normalize" in
  let shuffle := negb (CLI.HasParam p "linear_scan") in
  let numBasis := CLI.GetParam_int p "num_basis" in
  let armijoConstant := CLI.GetParam_double p "armijo_constant" in
  let wolfe := CLI.GetParam_double p "wolfe" in
  let maxLineSearchTrials := CLI.GetParam_int p "max_line_search_trials" in
  let minStep := CLI.GetParam_double p "min_step" in
  let maxStep := CLI.GetParam_double p "max_step" in
  let batchSize := to_size_t (CLI.GetParam_int p "batch_size") in
  let data := CLI.input p in
  dl <- load_labels p data ;;
  let data := fst dl in
  let rawLabels := snd dl in
  let labels := fst (NormalizeLabels rawLabels) in
  distance <- initial_distance normalize data ;;
  distance <- optimize optimizerType stepSize maxIterations tolerance shuffle
                numBasis armijoConstant wolfe maxLineSearchTrials minStep
                maxStep batchSize data labels distance ;;
  if CLI.HasParam p "output" then emit (Saved distance) else ret tt.

End Driver.


(** ** PCA whitening: [PcaWhitening] of pcawhitening.hpp *)

Module PcaWhitening.

Section Whitening.
Context {T : Type} `{Scalar T}.

(** Armadillo's [eig_sym(eigval, eigvec, X)] and [inv(A)], which the class
    calls: the eigenvalues come as a column vector, the eigenvectors as the
    columns of a matrix. *)
Variable eig_sym : Mat T -> Mat T * Mat T.
Variable inv : Mat T -> Mat T.

(** The members of the class. *)
Record t : Type := mk {
  itemMean : Mat T;
  eigenVectors : Mat T;
  epsilon : T;
  eigenValues : Mat T
}.

(** [PcaWhitening(double eps)] : the constructor sets the regularization
    parameter. *)
Definition make (eps : T) : t := mk empty empty eps empty.

(** Modelled from the spec: [mlpack::math::ColumnCovariance]
    (mlpack/core/math/lin_alg.hpp) is not among the sources.  It is the
    "covariance" of the whitening: each column is an observation, the mean
    of the columns is subtracted and the products are summed and divided by
    the number of columns less one (by 1 for a single column). *)
Definition ColumnCovariance (x : Mat T) : Mat T :=
  let n := n_cols x in
  let normVal := of_nat (if 1 <? n then n - 1 else 1) in
  let m := mean_rows x in
  mkMat (n_rows x) (n_rows x)
        (fun i j =>
           div (accu n (fun k => mul (sub (elem x i k) (elem m i 0))
                                     (sub (elem x j k) (elem m j 0))))
               normVal).

(** [Transform(input, output)] : the new state of the object and [output];
    [None] when Armadillo rejects [input.each_col() - itemMean]. *)
Definition Transform (self : t) (input : Mat T) : option (t * Mat T) :=
  let itemMean := mean_rows input in
  match each_col sub input itemMean with
  | None => None
  | Some output =>
      let (eigenValues, eigenVectors) := eig_sym (ColumnCovariance output) in
      let eigenValues := map1 (fun v => add v (epsilon self)) eigenValues in
      let output :=
        times (times (diagmat (map1 (div one) (map1 sqrt eigenValues)))
                     (trans eigenVectors))
              output in
      Some (mk itemMean eigenVectors (epsilon self) eigenValues, output)
  end.

(** [InverseTransform(input, output)] *)
Definition InverseTransform (self : t) (input : Mat T) : option (Mat T) :=
  let output :=
    times (times (diagmat (map1 sqrt (eigenValues self)))
                 (inv (trans (eigenVectors self))))
          input in
  each_col add output (itemMean self).

End Whitening.

End PcaWhitening.

Import PcaWhitening.


(** ** The vocabulary of the properties *)

(** Kinds of events. *)
Definition is_log (e : Event) : Prop :=
  match e with Logged _ _ => True | _ => False end.

Definition not_seeding (e : Event) : Prop :=
  match e with Seeded _ => False | _ => True end.

(** The events by which a run works on the optimization problem: the
    construction of the [NCA] object and the call of [LearnDistance]. *)
Definition is_optimization (e : Event) : Prop :=
  match e with
  | Constructed _ _ _ => True
  | LearnDistance_called _ _ => True
  | _ => False
  end.

(** [steady P m]: running [m] only adds events that satisfy [P] and leaves
    the random generator alone. *)
Definition steady {A : Type} (P : Event -> Prop) (m : M A) : Prop :=
  forall w, exists t,
    Forall P t /\ events (fst (m w)) = events w ++ t /\
    generator (fst (m w)) = generator w.

(** The optimizer's name is one of the two the program knows. *)
Definition known_optimizer (p : CLI.Params) : bool :=
  existsb (String.eqb (CLI.GetParam_string p "optimizer")) ["sgd"; "lbfgs"].

(** A configuration error: the optimizer's name is unknown, or separate
    labels were passed and their number is not the number of points. *)
Definition configuration_error (p : CLI.Params) : Prop :=
  known_optimizer p = false \/
  exists ls, CLI.labels p = Some ls /\
             List.length ls <> n_cols (CLI.input p).

Definition uses_sgd (p : CLI.Params) : bool :=
  (CLI.GetParam_string p "optimizer" =? "sgd")%string.

(** The [NCA] object with the settings lines 238-243 and 249-257 give its
    optimizer. *)
Definition nca_settings (p : CLI.Params) : Optimizer :=
  if (CLI.GetParam_string p "optimizer" =? "sgd")%string then
    WithSGD (SGD.mk (CLI.GetParam_double p "step_size")
                    (to_size_t (CLI.GetParam_int p "max_iterations"))
                    (CLI.GetParam_double p "tolerance")
                    (negb (CLI.HasParam p "linear_scan"))
                    (to_size_t (CLI.GetParam_int p "batch_size")))
  else
    WithL_BFGS (L_BFGS.mk (to_size_t (CLI.GetParam_int p "num_basis"))
                  (to_size_t (CLI.GetParam_int p "max_iterations"))
                  (CLI.GetParam_double p "armijo_constant")
                  (CLI.GetParam_double p "wolfe")
                  (CLI.GetParam_double p "tolerance")
                  (to_size_t (CLI.GetParam_int p "max_line_search_trials"))
                  (CLI.GetParam_double p "min_step")
                  (CLI.GetParam_double p "max_step")).

(** A [double] "truncated to an integer": the fractional part is discarded;
    an infinity and NaN have no integer. *)
Definition truncated (x : float) : option Z :=
  match Prim2SF x with
  | S754_zero _ => Some 0%Z
  | S754_finite s m e =>
      let t := if (0 <=? e)%Z then Z.shiftl (Zpos m) e
               else Z.shiftr (Zpos m) (- e) in
      Some (if s then (- t)%Z else t)
  | _ => None
  end.

(** The range of feature [d]: line 221 of the driver, [arma::max(data, 1) -
    arma::min(data, 1)] at row [d]. *)
Definition range (data : Mat float) (d : nat) : float :=
  PrimFloat.sub (row_max data d (n_cols data - 1))
                (row_min data d (n_cols data - 1)).

(** The options only one of the optimizers reads, as the parameter
    declarations and the specification's configuration list give them. *)
Definition lbfgs_only : list string :=
  ["num_basis"; "armijo_constant"; "wolfe"; "max_line_search_trials";
   "min_step"; "max_step"].

Definition sgd_only : list string := ["step_size"; "linear_scan"; "batch_size"].

(** What holds of every notice of a run: it names a parameter that was
    passed; under L-BFGS an SGD-only one, under SGD an L-BFGS-only one or
    [batch_size]. *)
Definition notice_ok (p : CLI.Params) (e : Event) : Prop :=
  match e with
  | Logged _ (Ignored name _) =>
      CLI.HasParam p name = true /\
      if uses_sgd p then In name (lbfgs_only ++ ["batch_size"])
      else In name sgd_only
  | _ => True
  end.

Definition not_a_notice (e : Event) : Prop :=
  match e with
  | Logged _ (Ignored _ _) => False
  | _ => True
  end.

(** Sums of real numbers: [accu] at the scalar type [R]. *)
Definition rsum (n : nat) (f : nat -> R) : R := accu n f.

(** What Armadillo documents of [eig_sym(eigval, eigvec, X)] for a symmetric
    [X]: the eigenvalues are in ascending order, the eigenvectors are the
    columns of [eigvec], of norm one and orthogonal to each other, and column
    [j] is an eigenvector for the eigenvalue [j]. *)
Definition is_eig_sym (X eigval eigvec : Mat R) : Prop :=
  let n := n_rows X in
  n_rows eigval = n /\ n_cols eigval = 1 /\
  n_rows eigvec = n /\ n_cols eigvec = n /\
  (forall i j, i < n -> j < n ->
     rsum n (fun a => elem eigvec a i * elem eigvec a j)%R
     = if i =? j then 1%R else 0%R) /\
  (forall a j, a < n -> j < n ->
     rsum n (fun b => elem X a b * elem eigvec b j)%R
     = (elem eigval j 0 * elem eigvec a j)%R) /\
  (forall i j, i <= j -> j < n -> (elem eigval i 0 <= elem eigval j 0)%R).

(** [B] is what [inv(A)] returns for an invertible square [A]. *)
Definition is_inv (A B : Mat R) : Prop :=
  n_rows B = n_rows A /\ n_cols B = n_rows A /\
  mat_eq (times B A) (eye_sized (n_rows A) (n_rows A)) /\
  mat_eq (times A B) (eye_sized (n_rows A) (n_rows A)).

(** A square matrix of full rank sends no vector but 0 to 0. *)
Definition full_rank (X : Mat R) : Prop :=
  forall v : nat -> R,
    (forall i, i < n_rows X ->
       rsum (n_cols X) (fun j => elem X i j * v j)%R = 0%R) ->
    forall j, j < n_cols X -> v j = 0%R.

(** [input.each_col() - arma::mean(input, 1)], the matrix [Transform] takes
    the covariance of. *)
Definition centred (input : Mat R) : Mat R :=
  mkMat (n_rows input) (n_cols input)
        (fun i j => (elem input i j - elem (mean_rows input) i 0)%R).

Definition covariance_of (input : Mat R) : Mat R :=
  ColumnCovariance (centred input).

(** The eigenvalues and eigenvectors [Transform] gets from [eig_sym]. *)
Definition eigval_of (eig_sym : Mat R -> Mat R * Mat R) (input : Mat R)
    : Mat R := fst (eig_sym (covariance_of input)).

Definition eigvec_of (eig_sym : Mat R -> Mat R * Mat R) (input : Mat R)
    : Mat R := snd (eig_sym (covariance_of input)).

(** [eig_sym] does on the covariance of [input] what Armadillo documents. *)
Definition eig_sym_ok (eig_sym : Mat R -> Mat R * Mat R) (input : Mat R)
    : Prop :=
  is_eig_sym (covariance_of input) (eigval_of eig_sym input)
             (eigvec_of eig_sym input).

(** The events other than log entries: the seeding and the work on the
    optimization problem. *)
Definition is_work (e : Event) : bool :=
  match e with Logged _ _ => false | _ => true end.

(** What a run comes to, the log left aside: the events that are no log
    entries, and how the run ends. *)
Definition summary (cast : float -> Z) (LearnDistance :
    option Z -> Optimizer -> Mat float -> list Z -> Mat float
    -> option (Mat float))
    (p : CLI.Params) (now : Z) : list Event * Outcome unit :=
  let s := to_size_t (if (CLI.GetParam_int p "seed" =? 0)%Z then now
                      else CLI.GetParam_int p "seed") in
  if negb (known_optimizer p) then ([Seeded s], Thrown RuntimeError)
  else
    match snd (load_labels cast p (CLI.input p) start) with
    | Thrown e => ([Seeded s], Thrown e)
    | Hangs => ([Seeded s], Hangs)
    | Done (data, raw) =>
        match snd (initial_distance (CLI.HasParam p "normalize") data start)
        with
        | Thrown e => ([Seeded s], Thrown e)
        | Hangs => ([Seeded s], Hangs)
        | Done dist =>
            let labels := fst (NormalizeLabels raw) in
            let work := [Seeded s; Constructed (uses_sgd p) data labels;
                         LearnDistance_called (nca_settings p) dist] in
            match LearnDistance (Some s) (nca_settings p) data labels dist
            with
            | Some learned =>
                (work ++ (if CLI.HasParam p "output" then [Saved learned]
                          else []),
                 Done tt)
            | None => (work, Hangs)
            end
        end
    end.

(** The parameters [p] with the options only SGD reads changed. *)
Definition set_sgd_options (step_size : option float) (linear_scan : bool)
    (batch_size : option Z) (p : CLI.Params) : CLI.Params :=
  CLI.mkParams (CLI.input p) (CLI.output p) (CLI.labels p) (CLI.optimizer p)
    (CLI.normalize p) (CLI.max_iterations p) (CLI.tolerance p)
    step_size linear_scan batch_size
    (CLI.num_basis p) (CLI.armijo_constant p) (CLI.wolfe p)
    (CLI.max_line_search_trials p) (CLI.min_step p) (CLI.max_step p)
    (CLI.seed p).

(** The parameters [p] with the options only L-BFGS reads changed. *)
Definition set_lbfgs_options (num_basis : option Z)
    (armijo_constant wolfe : option float)
    (max_line_search_trials : option Z) (min_step max_step : option float)
    (p : CLI.Params) : CLI.Params :=
  CLI.mkParams (CLI.input p) (CLI.output p) (CLI.labels p) (CLI.optimizer p)
    (CLI.normalize p) (CLI.max_iterations p) (CLI.tolerance p)
    (CLI.step_size p) (CLI.linear_scan p) (CLI.batch_size p)
    num_basis armijo_constant wolfe max_line_search_trials min_step max_step
    (CLI.seed p).

(** The options a run with the optimizer of [p] reports when they were
    passed: lines 157-164 under SGD, lines 168-170 under L-BFGS. *)
Definition reported_options (p : CLI.Params) : list string :=
  if uses_sgd p then lbfgs_only ++ ["batch_size"] else sgd_only.

(** A double that is a number: neither NaN nor infinite. *)
Definition is_number (x : float) : bool :=
  match Prim2SF x with
  | S754_zero _ => true
  | S754_finite _ _ _ => true
  | _ => false
  end.


(** ** Sample data *)

(** A stand-in for [NCA::LearnDistance] in runs on concrete data: it returns
    its starting point. *)
Definition returns_start (g : option Z) (o : Optimizer) (data : Mat float)
    (labels : list Z) (distance : Mat float) : option (Mat float) :=
  Some distance.

(** One that does not return. *)
Definition never_returns (g : option Z) (o : Optimizer) (data : Mat float)
    (labels : list Z) (distance : Mat float) : option (Mat float) := None.

(** A stand-in for the conversion to [size_t] of a [double] whose truncated
    value is no [size_t]: it gives 0. *)
Definition zero_cast (x : float) : Z := 0%Z.

(** Parameters with [output] passed and the optimizers' own settings left at
    their defaults, except [batch_size]. *)
Definition params_of (input : Mat float) (labels : option (list Z))
    (optimizer : option string) (normalize linear_scan : bool)
    (batch_size seed : option Z) : CLI.Params :=
  CLI.mkParams input true labels optimizer normalize None None None
               linear_scan batch_size None None None None None None seed.

(** Three points with two features and their labels in the last row; the
    first feature ranges over [0, 10], the second is constant. *)
Definition two_features : Mat float :=
  of_rows [[0; 10; 5]; [3; 3; 3]; [0; 1; 1]]%float.

(** The same points with -1 as the label of the first. *)
Definition negative_label : Mat float :=
  of_rows [[0; 10; 5]; [3; 3; 3]; [-1; 1; 1]]%float.

(** Two points with one feature, 0 and the smallest positive double, and
    their labels. *)
Definition tiny_range : Mat float :=
  of_rows [[0; 0x1p-1074]; [0; 1]]%float.

(** Ten points with one feature. *)
Definition ten_points : Mat float :=
  of_rows [[1; 2; 3; 4; 5; 6; 7; 8; 9; 10]]%float.

(** The sample data with [normalize] set, and its starting point. *)
Definition normalized_sample : CLI.Params :=
  params_of two_features None None true false None None.

Definition normalized_sample_start : Mat float :=
  diagmat (map1 (PrimFloat.div 1%float)
             (map1 fix_range
                (map2 PrimFloat.sub (max_rows (shed_row two_features 2))
                                    (min_rows (shed_row two_features 2))))).

(** Five points with two features.  The covariance of the features is
    [[73, 36], [36, 52]], with the eigenvalues 25 and 100 and the
    eigenvectors (3/5, -4/5) and (4/5, 3/5). *)
Definition correlated : Mat R :=
  of_rows [[12; -4; 6; -10; 1]; [5; -7; 13; 1; 3]]%R.

Definition correlated_eigval : Mat R := of_rows [[25]; [100]]%R.

Definition correlated_eigvec : Mat R :=
  of_rows [[3 / 5; 4 / 5]; [- 4 / 5; 3 / 5]]%R.

(** What [eig_sym] and [inv] return on this dataset: the decomposition
    above, and the inverse of the transposed matrix of eigenvectors, which
    is the matrix of eigenvectors. *)
Definition correlated_eig_sym (X : Mat R) : Mat R * Mat R :=
  (correlated_eigval, correlated_eigvec).

Definition correlated_inv (A : Mat R) : Mat R := correlated_eigvec.

(** Three points with two collinear features, the second seven times the
    first.  The covariance is [[1, 7], [7, 49]], without full rank: its
    eigenvalues are 0 and 50, with the eigenvectors (7, -1) / sqrt 50 and
    (1, 7) / sqrt 50. *)
Definition collinear : Mat float := of_rows [[-1; 0; 1]; [-7; 0; 7]]%float.

(** The eigenvalues of the symmetric matrix [[a, b], [b, c]] as LAPACK
    computes them in binary64 (routine DLAEV2, which the solvers behind
    [eig_sym] come to for a matrix of two rows): first the one of larger
    absolute value, then the other one. *)
Definition dlaev2_eigenvalues (a b c : float) : float * float :=
  let sm := (a + c)%float in
  let df := (a - c)%float in
  let adf := PrimFloat.abs df in
  let tb := (b + b)%float in
  let ab := PrimFloat.abs tb in
  let acmx := if PrimFloat.ltb (PrimFloat.abs c) (PrimFloat.abs a) then a
              else c in
  let acmn := if PrimFloat.ltb (PrimFloat.abs c) (PrimFloat.abs a) then c
              else a in
  let rt :=
    if PrimFloat.ltb ab adf then
      (adf * PrimFloat.sqrt (1 + (ab / adf) * (ab / adf)))%float
    else if PrimFloat.ltb adf ab then
      (ab * PrimFloat.sqrt (1 + (adf / ab) * (adf / ab)))%float
    else (ab * PrimFloat.sqrt 2)%float in
  if PrimFloat.ltb sm 0 then
    let rt1 := (0.5 * (sm - rt))%float in
    (rt1, ((acmx / rt1) * acmn - (b / rt1) * b)%float)
  else if PrimFloat.ltb 0 sm then
    let rt1 := (0.5 * (sm + rt))%float in
    (rt1, ((acmx / rt1) * acmn - (b / rt1) * b)%float)
  else ((0.5 * rt)%float, (- (0.5 * rt))%float).

(** What [eig_sym] returns on the covariance of [collinear]: the
    eigenvalues in ascending order as LAPACK computes them, and the
    eigenvectors above. *)
Definition collinear_eig_sym (X : Mat float) : Mat float * Mat float :=
  let (rt1, rt2) := dlaev2_eigenvalues (elem X 0 0) (elem X 0 1) (elem X 1 1)
  in
  (of_rows [[rt2]; [rt1]],
   of_rows [[7 / PrimFloat.sqrt 50; 1 / PrimFloat.sqrt 50];
            [- (1 / PrimFloat.sqrt 50); 7 / PrimFloat.sqrt 50]]%float).

(** Four points with two uncorrelated features of means 1 and 3.  The
    covariance is [[4/3, 0], [0, 16/3]]: the eigenvalues are the variances,
    in ascending order, and the eigenvectors the axes. *)
Definition uncorrelated : Mat R :=
  of_rows [[2; 0; 2; 0]; [5; 5; 1; 1]]%R.

Definition uncorrelated_eigval : Mat R := of_rows [[4 / 3]; [16 / 3]]%R.

Definition uncorrelated_eigvec : Mat R := of_rows [[1; 0]; [0; 1]]%R.

Definition uncorrelated_eig_sym (X : Mat R) : Mat R * Mat R :=
  (uncorrelated_eigval, uncorrelated_eigvec).

Definition uncorrelated_inv (A : Mat R) : Mat R := uncorrelated_eigvec.

(** The points of [correlated] moved by (10, -3): the first one is
    (22, 2). *)
Definition offsets : Mat R := of_rows [[10]; [-3]]%R.

Definition correlated_shifted : Mat R :=
  mkMat 2 5 (fun i j => (elem correlated i j + elem offsets i 0)%R).


(** ** Reasoning about runs *)

Lemma bind_run {A B : Type} (m : M A) (k : A -> M B) (w : World) :
  bind m k w = match snd (m w) with
               | Done a => k a (fst (m w))
               | Thrown e => (fst (m w), Thrown e)
               | Hangs => (fst (m w), Hangs)
               end.
Proof. unfold bind. destruct (m w) as [w' [a | e |]]; reflexivity. Qed.

Lemma steady_ret {A : Type} (P : Event -> Prop) (a : A) : steady P (ret a).
Proof.
  intros w. exists []. simpl. rewrite app_nil_r. auto.
Qed.

Lemma steady_throw {A : Type} (P : Event -> Prop) (e : Exception) :
  steady P (@throw A e).
Proof.
  intros w. exists []. simpl. rewrite app_nil_r. auto.
Qed.

Lemma steady_hang {A : Type} (P : Event -> Prop) : steady P (@hang A).
Proof.
  intros w. exists []. simpl. rewrite app_nil_r. auto.
Qed.

Lemma steady_emit (P : Event -> Prop) (e : Event) : P e -> steady P (emit e).
Proof.
  intros He w. exists [e]. simpl. auto.
Qed.

Lemma steady_get_generator (P : Event -> Prop) : steady P get_generator.
Proof.
  intros w. exists []. simpl. rewrite app_nil_r. auto.
Qed.

Lemma steady_bind {A B : Type} (P : Event -> Prop) (m : M A) (k : A -> M B) :
  steady P m -> (forall a, steady P (k a)) -> steady P (bind m k).
Proof.
  intros Hm Hk w. rewrite bind_run.
  destruct (Hm w) as (t1 & F1 & E1 & G1).
  destruct (snd (m w)) as [a | e |].
  - destruct (Hk a (fst (m w))) as (t2 & F2 & E2 & G2).
    exists (t1 ++ t2). rewrite E2, E1, G2, G1, app_assoc.
    repeat split. apply Forall_app; auto.
  - exists t1. simpl. auto.
  - exists t1. simpl. auto.
Qed.

Lemma steady_weaken {A : Type} (P Q : Event -> Prop) (m : M A) :
  (forall e, P e -> Q e) -> steady P m -> steady Q m.
Proof.
  intros HPQ Hm w. destruct (Hm w) as (t & F & E & G).
  exists t. repeat split; auto. eapply Forall_impl; eauto.
Qed.

Ltac steady_step :=
  first
    [ apply steady_ret
    | apply steady_throw
    | apply steady_hang
    | apply steady_get_generator
    | apply steady_emit; exact I
    | apply steady_bind; [ | intros ? ]
    | match goal with
      | |- steady _ (if ?c then _ else _) => destruct c
      | |- steady _ (match ?x with _ => _ end) => destruct x
      end ].

Ltac steady_tac := repeat steady_step.

Lemma steady_Log (l : Level) (m : Message) : steady is_log (Log l m).
Proof. unfold Log. steady_tac. Qed.

Lemma steady_Log_Fatal {A : Type} (m : Message) :
  steady is_log (@Log_Fatal A m).
Proof. unfold Log_Fatal. steady_tac. Qed.

Lemma steady_RequireAtLeastOnePassed p names fatal reason :
  steady is_log (RequireAtLeastOnePassed p names fatal reason).
Proof.
  unfold RequireAtLeastOnePassed, Log, Log_Fatal. steady_tac.
Qed.

Lemma steady_RequireParamInSet p name set fatal reason :
  steady is_log (RequireParamInSet p name set fatal reason).
Proof.
  unfold RequireParamInSet, Log, Log_Fatal. cbv zeta. steady_tac.
Qed.

Lemma steady_ReportIgnoredParam p name reason :
  steady is_log (ReportIgnoredParam p name reason).
Proof. unfold ReportIgnoredParam, Log. steady_tac. Qed.

Lemma steady_warn_unused p o : steady is_log (warn_unused p o).
Proof.
  unfold warn_unused.
  destruct (o =? "sgd")%string; [ | destruct (o =? "lbfgs")%string ];
    repeat first [ apply steady_ReportIgnoredParam | apply steady_ret
                 | apply steady_bind; [ | intros ? ] ].
Qed.

Lemma steady_load_labels cast p data : steady is_log (load_labels cast p data).
Proof.
  unfold load_labels, Log, Log_Fatal. cbv zeta. steady_tac.
Qed.

Lemma steady_initial_distance normalize data :
  steady is_log (initial_distance normalize data).
Proof.
  unfold initial_distance, Log. cbv zeta. steady_tac.
Qed.

(** The blocks before the data is read always run to their end, except the
    check of the optimizer's name. *)
Lemma seed_generator_run p now w :
  let s := to_size_t (if (CLI.GetParam_int p "seed" =? 0)%Z then now
                      else CLI.GetParam_int p "seed") in
  seed_generator p now w = (mkWorld (events w ++ [Seeded s]) (Some s), Done tt).
Proof.
  unfold seed_generator, RandomSeed.
  destruct (CLI.GetParam_int p "seed" =? 0)%Z; reflexivity.
Qed.

Lemma RequireAtLeastOnePassed_done p names reason w :
  snd (RequireAtLeastOnePassed p names false reason w) = Done tt.
Proof.
  unfold RequireAtLeastOnePassed.
  destruct (existsb (CLI.HasParam p) names); reflexivity.
Qed.

Lemma ReportIgnoredParam_done p name reason w :
  snd (ReportIgnoredParam p name reason w) = Done tt.
Proof.
  unfold ReportIgnoredParam. destruct (CLI.HasParam p name); reflexivity.
Qed.

Lemma warn_unused_done p o w : snd (warn_unused p o w) = Done tt.
Proof.
  unfold warn_unused.
  destruct (o =? "sgd")%string; [ | destruct (o =? "lbfgs")%string ];
    repeat (rewrite bind_run, ReportIgnoredParam_done);
    try apply ReportIgnoredParam_done; reflexivity.
Qed.

Lemma RequireParamInSet_run p w :
  RequireParamInSet p "optimizer" ["sgd"; "lbfgs"] true
    "unknown optimizer type" w =
  if known_optimizer p then (w, Done tt)
  else (mkWorld (events w ++
                   [Logged Fatal
                      (NotInSet "optimizer" (CLI.GetParam_string p "optimizer")
                                "unknown optimizer type")])
                (generator w),
        Thrown RuntimeError).
Proof.
  unfold RequireParamInSet, known_optimizer. cbv zeta.
  destruct (existsb _ _); reflexivity.
Qed.

Lemma log_not_seeding (e : Event) : is_log e -> not_seeding e.
Proof. destruct e; simpl; tauto. Qed.

(** Uses the facts on the blocks of [mlpackMain] under a weaker invariant. *)
Ltac steady_block :=
  first
    [ apply steady_RequireAtLeastOnePassed
    | apply steady_RequireParamInSet
    | apply steady_warn_unused
    | apply steady_load_labels
    | apply steady_initial_distance ].

Ltac steady_main weaken :=
  repeat first
    [ steady_block
    | eapply steady_weaken; [ exact weaken | steady_block ]
    | steady_step ].

(** C9: the random generator is seeded first of all, with the value of
    [seed] when it is not 0 and with the wall-clock time otherwise; nothing
    seeds it again. *)
Theorem seeding_comes_first cast LearnDistance p now :
  let s := to_size_t (if (CLI.GetParam_int p "seed" =? 0)%Z then now
                      else CLI.GetParam_int p "seed") in
  exists rest,
    events (fst (mlpackMain cast LearnDistance p now start)) = Seeded s :: rest /\
    Forall not_seeding rest /\
    generator (fst (mlpackMain cast LearnDistance p now start)) = Some s.
Proof.
  intros s. unfold mlpackMain.
  rewrite bind_run, seed_generator_run. cbn [fst snd].
  match goal with
  | |- context [fst (?k ?w)] =>
      assert (Hk : steady not_seeding k)
  end.
  { unfold optimize. cbv zeta. steady_main log_not_seeding. }
  match goal with
  | |- context [fst (?k ?w)] => destruct (Hk w) as (t & F & E & G)
  end.
  exists t. rewrite E, G. cbn. auto.
Qed.

Lemma load_labels_mismatch cast p data ls w :
  CLI.labels p = Some ls -> List.length ls <> n_cols data ->
  load_labels cast p data w =
  (mkWorld (events w ++ [Logged Fatal (LabelCount (List.length ls)
                                                    (n_cols data))])
           (generator w),
   Thrown RuntimeError).
Proof.
  intros Hl Hne. unfold load_labels. cbn. rewrite Hl. cbn.
  apply Nat.eqb_neq in Hne. rewrite Hne. reflexivity.
Qed.

Lemma log_not_optimization (e : Event) : is_log e -> ~ is_optimization e.
Proof. destruct e; simpl; tauto. Qed.

(** C4: on a configuration error the run ends with the exception of
    [Log::Fatal]; the report is the last thing it does, and before it the
    run has only seeded the generator and written to the log: no [NCA]
    object is constructed and [LearnDistance] is not called. *)
Theorem configuration_error_is_fatal cast LearnDistance p now :
  configuration_error p ->
  let r := mlpackMain cast LearnDistance p now start in
  snd r = Thrown RuntimeError /\
  (exists s logs m,
     events (fst r) = Seeded s :: logs ++ [Logged Fatal m] /\
     Forall is_log logs) /\
  Forall (fun e => ~ is_optimization e) (events (fst r)).
Proof.
  intros Herr r.
  assert (Hshape : snd r = Thrown RuntimeError /\
                   exists s logs m,
                     events (fst r) = Seeded s :: logs ++ [Logged Fatal m] /\
                     Forall is_log logs).
  { subst r. unfold mlpackMain.
    rewrite bind_run, seed_generator_run. cbn [fst snd].
    rewrite bind_run, RequireAtLeastOnePassed_done.
    match goal with
    | |- context [fst (RequireAtLeastOnePassed ?a ?b ?c ?d ?w)] =>
        destruct (steady_RequireAtLeastOnePassed a b c d w)
          as (t1 & F1 & E1 & G1);
        remember (fst (RequireAtLeastOnePassed a b c d w)) as w1
    end.
    cbn [events generator app] in E1, G1.
    rewrite bind_run, RequireParamInSet_run.
    destruct (known_optimizer p) eqn:Hk.
    - destruct Herr as [Hu | (ls & Hl & Hne)]; [ congruence | ].
      cbn [fst snd]. rewrite bind_run, warn_unused_done.
      match goal with
      | |- context [fst (warn_unused ?a ?b ?w)] =>
          destruct (steady_warn_unused a b w) as (t2 & F2 & E2 & G2);
          remember (fst (warn_unused a b w)) as w2
      end.
      cbv zeta. rewrite bind_run.
      rewrite (load_labels_mismatch cast p (CLI.input p) w2 Hl Hne).
      cbn [fst snd events]. split; [ reflexivity | ].
      rewrite E2, E1. eexists _, (t1 ++ t2), _.
      rewrite <- !app_assoc. split; [ reflexivity | ].
      apply Forall_app; auto.
    - cbn [fst snd events]. split; [ reflexivity | ].
      rewrite E1. eexists _, t1, _. split; [ reflexivity | assumption ]. }
  destruct Hshape as (Ho & s & logs & m & Ev & Fl).
  split; [ exact Ho | ]. split; [ eauto | ].
  rewrite Ev. constructor; [ simpl; tauto | ].
  apply Forall_app. split.
  - eapply Forall_impl; [ apply log_not_optimization | exact Fl ].
  - constructor; [ simpl; tauto | constructor ].
Qed.

(** Whether a block ends normally, and with which value, does not depend on
    what the run did before. *)
Lemma load_labels_outcome cast p data w :
  snd (load_labels cast p data w) = snd (load_labels cast p data start).
Proof.
  unfold load_labels, Log, Log_Fatal. cbv zeta.
  destruct (CLI.HasParam p "labels").
  - destruct (negb _); reflexivity.
  - cbn. destruct (n_rows data =? 0); reflexivity.
Qed.

Lemma load_labels_returns cast p data w :
  snd (load_labels cast p data w) <> Hangs.
Proof.
  unfold load_labels, Log, Log_Fatal. cbv zeta.
  destruct (CLI.HasParam p "labels").
  - destruct (negb _); discriminate.
  - cbn. destruct (n_rows data =? 0); discriminate.
Qed.

Lemma initial_distance_returns normalize data w :
  snd (initial_distance normalize data w) <> Hangs.
Proof.
  unfold initial_distance, Log. cbv zeta.
  destruct normalize; [ | discriminate ].
  destruct (_ && _); discriminate.
Qed.

Lemma initial_distance_outcome normalize data w :
  snd (initial_distance normalize data w) =
  snd (initial_distance normalize data start).
Proof.
  unfold initial_distance, Log. cbv zeta.
  destruct normalize; [ | reflexivity ].
  destruct (_ && _); reflexivity.
Qed.

Lemma optimize_run LearnDistance p data labels distance w :
  known_optimizer p = true ->
  optimize LearnDistance (CLI.GetParam_string p "optimizer")
    (CLI.GetParam_double p "step_size")
    (to_size_t (CLI.GetParam_int p "max_iterations"))
    (CLI.GetParam_double p "tolerance")
    (negb (CLI.HasParam p "linear_scan"))
    (CLI.GetParam_int p "num_basis")
    (CLI.GetParam_double p "armijo_constant")
    (CLI.GetParam_double p "wolfe")
    (CLI.GetParam_int p "max_line_search_trials")
    (CLI.GetParam_double p "min_step")
    (CLI.GetParam_double p "max_step")
    (to_size_t (CLI.GetParam_int p "batch_size"))
    data labels distance w =
  (mkWorld (events w ++ [Constructed (uses_sgd p) data labels;
                         LearnDistance_called (nca_settings p) distance])
           (generator w),
   match LearnDistance (generator w) (nca_settings p) data labels distance
   with
   | Some learned => Done learned
   | None => Hangs
   end).
Proof.
  unfold known_optimizer, optimize, call_LearnDistance, nca_settings, uses_sgd.
  cbn [existsb]. intros Hk.
  destruct (CLI.GetParam_string p "optimizer" =? "sgd")%string.
  - cbn. rewrite <- app_assoc.
    destruct (LearnDistance _ _ _ _ _); reflexivity.
  - rewrite orb_false_r, orb_false_l in Hk. rewrite Hk.
    cbn. rewrite <- app_assoc.
    destruct (LearnDistance _ _ _ _ _); reflexivity.
Qed.

(** What a run of [mlpackMain] does: it seeds the generator and writes to
    the log; then either it ends by an exception, or it reaches the
    optimization with the data and labels of [load_labels] and the starting
    point of [initial_distance] and calls [LearnDistance] once.  When the
    call returns, the run saves what was learned if [output] was asked for,
    and ends; when it does not, the run does not end. *)
Lemma mlpackMain_run cast LearnDistance p now :
  let r := mlpackMain cast LearnDistance p now start in
  let s := to_size_t (if (CLI.GetParam_int p "seed" =? 0)%Z then now
                      else CLI.GetParam_int p "seed") in
  exists logs, Forall is_log logs /\
    ((events (fst r) = Seeded s :: logs /\
      exists e, snd r = Thrown e /\
        (known_optimizer p = false \/
         snd (load_labels cast p (CLI.input p) start) = Thrown e \/
         exists data raw,
           snd (load_labels cast p (CLI.input p) start) = Done (data, raw) /\
           snd (initial_distance (CLI.HasParam p "normalize") data start)
             = Thrown e)) \/
     (exists data raw dist,
        known_optimizer p = true /\
        snd (load_labels cast p (CLI.input p) start) = Done (data, raw) /\
        snd (initial_distance (CLI.HasParam p "normalize") data start)
          = Done dist /\
        let labels := fst (NormalizeLabels raw) in
        let work := [Constructed (uses_sgd p) data labels;
                     LearnDistance_called (nca_settings p) dist] in
        match LearnDistance (Some s) (nca_settings p) data labels dist with
        | Some learned =>
            snd r = Done tt /\
            events (fst r) =
              Seeded s :: logs ++ work ++
                (if CLI.HasParam p "output" then [Saved learned] else [])
        | None =>
            snd r = Hangs /\ events (fst r) = Seeded s :: logs ++ work
        end)).
Proof.
  intros r s. subst r. unfold mlpackMain.
  rewrite bind_run, seed_generator_run. fold s. cbn [fst snd].
  rewrite bind_run, RequireAtLeastOnePassed_done.
  match goal with
  | |- context [fst (RequireAtLeastOnePassed ?a ?b ?c ?d ?w)] =>
      destruct (steady_RequireAtLeastOnePassed a b c d w)
        as (t1 & F1 & E1 & G1);
      remember (fst (RequireAtLeastOnePassed a b c d w)) as w1
  end.
  cbn [events generator app] in E1, G1.
  rewrite bind_run, RequireParamInSet_run.
  destruct (known_optimizer p) eqn:Hk; cbn [fst snd].
  2:{ exists (t1 ++ [Logged Fatal
                      (NotInSet "optimizer" (CLI.GetParam_string p "optimizer")
                                "unknown optimizer type")]).
      split; [ apply Forall_app; split; [ assumption | repeat constructor ] | ].
      left. split; [ cbn [events]; rewrite E1; reflexivity | ].
      exists RuntimeError. auto. }
  rewrite bind_run, warn_unused_done.
  match goal with
  | |- context [fst (warn_unused ?a ?b ?w)] =>
      destruct (steady_warn_unused a b w) as (t2 & F2 & E2 & G2);
      remember (fst (warn_unused a b w)) as w2
  end.
  cbv zeta. rewrite bind_run.
  destruct (steady_load_labels cast p (CLI.input p) w2) as (t3 & F3 & E3 & G3).
  pose proof (load_labels_outcome cast p (CLI.input p) w2) as O3.
  pose proof (load_labels_returns cast p (CLI.input p) start) as R3.
  remember (fst (load_labels cast p (CLI.input p) w2)) as w3.
  destruct (snd (load_labels cast p (CLI.input p) w2)) as [[data raw] | e |].
  2:{ exists (t1 ++ t2 ++ t3). split; [ repeat (apply Forall_app; split); auto | ].
      left. cbn [fst snd]. split.
      - rewrite E3, E2, E1. cbn. rewrite <- !app_assoc. reflexivity.
      - exists e. split; [ reflexivity | ]. right. left. symmetry. exact O3. }
  2:{ exfalso. apply R3. symmetry. exact O3. }
  cbn [fst snd]. rewrite bind_run.
  destruct (steady_initial_distance (CLI.HasParam p "normalize") data w3)
    as (t4 & F4 & E4 & G4).
  pose proof (initial_distance_outcome (CLI.HasParam p "normalize") data w3)
    as O4.
  pose proof (initial_distance_returns (CLI.HasParam p "normalize") data start)
    as R4.
  remember (fst (initial_distance (CLI.HasParam p "normalize") data w3)) as w4.
  destruct (snd (initial_distance (CLI.HasParam p "normalize") data w3))
    as [dist | e |].
  2:{ exists (t1 ++ t2 ++ t3 ++ t4).
      split; [ repeat (apply Forall_app; split); auto | ].
      left. cbn [fst snd]. split.
      - rewrite E4, E3, E2, E1. cbn. rewrite <- !app_assoc. reflexivity.
      - exists e. split; [ reflexivity | ]. right. right.
        exists data, raw. split; symmetry; assumption. }
  2:{ exfalso. apply R4. symmetry. exact O4. }
  exists (t1 ++ t2 ++ t3 ++ t4).
  split; [ repeat (apply Forall_app; split); auto | ].
  right. exists data, raw, dist.
  split; [ reflexivity | ]. split; [ symmetry; exact O3 | ].
  split; [ symmetry; exact O4 | ].
  rewrite bind_run, optimize_run by exact Hk. cbn [fst snd].
  assert (Hg : generator w4 = Some s) by (rewrite G4, G3, G2, G1; reflexivity).
  rewrite Hg.
  assert (He : events w4 = Seeded s :: t1 ++ t2 ++ t3 ++ t4).
  { rewrite E4, E3, E2, E1. cbn. rewrite <- !app_assoc. reflexivity. }
  cbv zeta.
  destruct (LearnDistance (Some s) (nca_settings p) data
              (fst (NormalizeLabels raw)) dist) as [learned |].
  - destruct (CLI.HasParam p "output"); cbn; rewrite He; cbn;
      rewrite <- ?app_assoc; cbn; rewrite ?app_nil_r; split; reflexivity.
  - cbn. rewrite He. cbn. rewrite <- ?app_assoc. split; reflexivity.
Qed.

(** An event of the optimization is one of the two that follow the log. *)
Lemma optimization_reached cast LearnDistance p now e :
  In e (events (fst (mlpackMain cast LearnDistance p now start))) ->
  is_optimization e ->
  exists data raw dist,
    known_optimizer p = true /\
    snd (load_labels cast p (CLI.input p) start) = Done (data, raw) /\
    snd (initial_distance (CLI.HasParam p "normalize") data start)
      = Done dist /\
    (e = Constructed (uses_sgd p) data (fst (NormalizeLabels raw)) \/
     e = LearnDistance_called (nca_settings p) dist).
Proof.
  intros Hin Hopt.
  destruct (mlpackMain_run cast LearnDistance p now) as (logs & Fl & Hrun).
  cbv zeta in Hrun.
  assert (Hlogs : ~ In e logs).
  { intros Hl. rewrite Forall_forall in Fl.
    exact (log_not_optimization e (Fl e Hl) Hopt). }
  destruct Hrun as [(Ev & _) | (data & raw & dist & Hk & Hl & Hd & Hrun)].
  - rewrite Ev in Hin.
    destruct Hin as [<- | Hin]; [ destruct Hopt | contradiction ].
  - exists data, raw, dist. repeat (split; [ assumption | ]).
    destruct (LearnDistance _ _ _ _ _) as [learned |];
      destruct Hrun as (_ & Ev); rewrite Ev in Hin;
      (destruct Hin as [<- | Hin]; [ destruct Hopt | ]);
      (apply in_app_or in Hin; destruct Hin as [Hin | Hin];
       [ contradiction | ]);
      (destruct Hin as [<- | [<- | Hin]]; auto).
    + destruct (CLI.HasParam p "output"); cbn in Hin.
      * destruct Hin as [<- | []]. destruct Hopt.
      * destruct Hin.
    + destruct Hin.
Qed.

Lemma Constructed_reached cast LearnDistance p now sgd data labels :
  In (Constructed sgd data labels)
     (events (fst (mlpackMain cast LearnDistance p now start))) ->
  exists raw,
    snd (load_labels cast p (CLI.input p) start) = Done (data, raw) /\
    labels = fst (NormalizeLabels raw) /\
    exists dist,
      snd (initial_distance (CLI.HasParam p "normalize") data start)
        = Done dist.
Proof.
  intros Hin.
  destruct (optimization_reached _ _ _ _ _ Hin I)
    as (data' & raw & dist & _ & Hl & Hd & [He | He]); inversion He; subst.
  exists raw. eauto.
Qed.

Lemma LearnDistance_reached cast LearnDistance p now o dist :
  In (LearnDistance_called o dist)
     (events (fst (mlpackMain cast LearnDistance p now start))) ->
  exists data raw,
    snd (load_labels cast p (CLI.input p) start) = Done (data, raw) /\
    snd (initial_distance (CLI.HasParam p "normalize") data start)
      = Done dist /\
    o = nca_settings p /\
    In (Constructed (uses_sgd p) data (fst (NormalizeLabels raw)))
       (events (fst (mlpackMain cast LearnDistance p now start))).
Proof.
  intros Hin.
  destruct (optimization_reached _ _ _ _ _ Hin I)
    as (data & raw & dist' & Hk & Hl & Hd & [He | He]); inversion He; subst.
  exists data, raw. repeat (split; [ assumption || reflexivity | ]).
  destruct (mlpackMain_run cast LearnDistance p now) as (logs & Fl & Hrun).
  cbv zeta in Hrun.
  destruct Hrun as [(Ev & _) | (data1 & raw1 & dist1 & _ & Hl1 & Hd1 & Hrun)].
  - exfalso. rewrite Ev in Hin. destruct Hin as [Hs | Hin]; [ discriminate | ].
    rewrite Forall_forall in Fl. exact (Fl _ Hin).
  - rewrite Hl in Hl1. inversion Hl1; subst.
    destruct (LearnDistance _ _ _ _ _) as [learned |];
      destruct Hrun as (_ & Ev); rewrite Ev;
      right; apply in_or_app; right; left; reflexivity.
Qed.

(** The cast of a [double] to [size_t]. *)
Lemma shifted_nonneg m e :
  (0 <= (if (0 <=? e)%Z then Z.shiftl (Zpos m) e
         else Z.shiftr (Zpos m) (- e)))%Z.
Proof.
  destruct (0 <=? e)%Z.
  - apply Z.shiftl_nonneg. lia.
  - apply Z.shiftr_nonneg. lia.
Qed.

Lemma size_t_of_double_truncated x t :
  size_t_of_double x = Some t <->
  truncated x = Some t /\ (0 <= t <= SIZE_MAX)%Z.
Proof.
  unfold size_t_of_double, truncated, SIZE_MAX.
  destruct (Prim2SF x) as [s | s | | s m e].
  - split; [ intros [= <-]; split; [ reflexivity | lia ] | intros ([= <-] & _) ];
      reflexivity.
  - split; [ discriminate | intros (Hx & _); discriminate ].
  - split; [ discriminate | intros (Hx & _); discriminate ].
  - cbv zeta. pose proof (shifted_nonneg m e) as Ht.
    set (v := if (0 <=? e)%Z then Z.shiftl (Zpos m) e
              else Z.shiftr (Zpos m) (- e)) in *.
    destruct s.
    + destruct (Z.eqb_spec v 0) as [Hz | Hz].
      * rewrite Hz. split; [ intros [= <-]; split; [ reflexivity | lia ]
                           | intros ([= <-] & _); reflexivity ].
      * split; [ discriminate | intros ([= <-] & Hr); lia ].
    + destruct (Z.leb_spec v (2 ^ 64 - 1)) as [Hle | Hgt].
      * split; [ intros [= <-]; split; [ reflexivity | lia ]
               | intros ([= <-] & _); reflexivity ].
      * split; [ discriminate | intros ([= <-] & Hr); lia ].
Qed.

Lemma cast_size_t_range cast x : (0 <= cast_size_t cast x <= SIZE_MAX)%Z.
Proof.
  unfold cast_size_t. destruct (size_t_of_double x) as [t |] eqn:Hx.
  - apply size_t_of_double_truncated in Hx. tauto.
  - unfold to_size_t, SIZE_MAX.
    pose proof (Z.mod_pos_bound (cast x) (2 ^ 64) ltac:(lia)). lia.
Qed.

Lemma cast_size_t_truncated cast x t :
  truncated x = Some t -> (0 <= t <= SIZE_MAX)%Z -> cast_size_t cast x = t.
Proof.
  intros Hx Hr. unfold cast_size_t.
  rewrite (proj2 (size_t_of_double_truncated x t) (conj Hx Hr)). reflexivity.
Qed.

(** The blocks that read the labels and choose the starting point. *)
Lemma labels_of_row_spec cast data r n :
  List.length (labels_of_row cast data r n) = n /\
  forall i, i < n ->
    nth i (labels_of_row cast data r n) 0%Z = cast_size_t cast (elem data r i).
Proof.
  induction n as [| n (Hlen & Hnth)]; simpl.
  - split; [ reflexivity | intros i Hi; lia ].
  - split; [ rewrite length_app; simpl; lia | ].
    intros i Hi. destruct (Nat.eq_dec i n) as [-> | Hne].
    + rewrite app_nth2 by lia. rewrite Hlen, Nat.sub_diag. reflexivity.
    + rewrite app_nth1 by lia. apply Hnth. lia.
Qed.

Lemma load_labels_last_row cast p data data' rawLabels :
  CLI.labels p = None ->
  snd (load_labels cast p data start) = Done (data', rawLabels) ->
  0 < n_rows data /\
  data' = shed_row data (n_rows data - 1) /\
  rawLabels = labels_of_row cast data (n_rows data - 1) (n_cols data).
Proof.
  intros Hnone. unfold load_labels. cbn. rewrite Hnone. cbn.
  destruct (n_rows data =? 0) eqn:Hr; [ discriminate | ].
  apply Nat.eqb_neq in Hr. cbn.
  intros Hd. inversion Hd; subst. repeat split. lia.
Qed.

Lemma load_labels_separate cast p data data' rawLabels given :
  CLI.labels p = Some given ->
  snd (load_labels cast p data start) = Done (data', rawLabels) ->
  data' = data /\ rawLabels = given /\ List.length given = n_cols data.
Proof.
  intros Hsome. unfold load_labels. cbn. rewrite Hsome. cbn.
  destruct (List.length given =? n_cols data) eqn:Hn; cbn; [ | discriminate ].
  apply Nat.eqb_eq in Hn. intros Hd. inversion Hd; subst. auto.
Qed.

Lemma initial_distance_plain data :
  initial_distance false data start = (start, Done (eye empty)).
Proof. reflexivity. Qed.

Lemma initial_distance_normalized data dist :
  snd (initial_distance true data start) = Done dist ->
  (0 < n_cols data \/ n_rows data = 0) /\
  dist = diagmat (map1 (PrimFloat.div 1%float)
                   (map1 fix_range
                      (map2 PrimFloat.sub (max_rows data) (min_rows data)))).
Proof.
  unfold initial_distance. cbv zeta.
  destruct (n_cols data =? 0) eqn:Hc; destruct (n_rows data =? 0) eqn:Hr;
    cbn; try discriminate; intros Hd; inversion Hd; subst;
    apply Nat.eqb_eq in Hc || apply Nat.eqb_neq in Hc;
    apply Nat.eqb_eq in Hr || apply Nat.eqb_neq in Hr;
    (split; [ lia | reflexivity ]).
Qed.

(** When the optimization is reached. *)
Lemma optimization_is_reached cast LearnDistance p now data raw dist :
  known_optimizer p = true ->
  snd (load_labels cast p (CLI.input p) start) = Done (data, raw) ->
  snd (initial_distance (CLI.HasParam p "normalize") data start) = Done dist ->
  let r := mlpackMain cast LearnDistance p now start in
  In (Constructed (uses_sgd p) data (fst (NormalizeLabels raw)))
     (events (fst r)) /\
  In (LearnDistance_called (nca_settings p) dist) (events (fst r)).
Proof.
  intros Hk Hl Hd r.
  destruct (mlpackMain_run cast LearnDistance p now) as (logs & _ & Hrun).
  cbv zeta in Hrun. fold r in Hrun.
  destruct Hrun as [(_ & e & _ & [Hu | [Hle | (data' & raw' & Hl' & Hd')]])
                   | (data' & raw' & dist' & _ & Hl' & Hd' & Hrun)].
  - congruence.
  - congruence.
  - rewrite Hl in Hl'. inversion Hl'; subst. congruence.
  - rewrite Hl in Hl'. inversion Hl'; subst.
    rewrite Hd in Hd'. inversion Hd'; subst.
    destruct (LearnDistance _ _ _ _ _) as [learned |];
      destruct Hrun as (_ & Ev); rewrite Ev;
      split; right; apply in_or_app; right; cbn; auto.
Qed.

(** Without [labels], the labels are read whenever the input has a row. *)
Lemma load_labels_last_row_defined cast p data :
  CLI.labels p = None ->
  0 < n_rows data ->
  snd (load_labels cast p data start)
  = Done (shed_row data (n_rows data - 1),
          labels_of_row cast data (n_rows data - 1) (n_cols data)).
Proof.
  intros Hnone Hrow.
  unfold load_labels. cbn. rewrite Hnone. cbn.
  destruct (Nat.eqb_spec (n_rows data) 0) as [E | _]; [ lia | ].
  reflexivity.
Qed.

(** How the cast of a [double] to [size_t] and the renumbering of the labels
    behave on some values. *)
Example size_t_of_double_examples :
  map size_t_of_double [2.75; 3; 0; -0.5; -1; infinity; nan;
                        0x1p63; 0x1p64]%float
  = [Some 2; Some 3; Some 0; Some 0; None; None; None;
     Some (2 ^ 63); None]%Z.
Proof. vm_compute. reflexivity. Qed.

Example truncated_examples :
  map truncated [2.75; 3; 0; -0.5; -1; -2.5; infinity; nan]%float
  = [Some 2; Some 3; Some 0; Some 0; Some (-1); Some (-2); None; None]%Z.
Proof. vm_compute. reflexivity. Qed.

Example NormalizeLabels_example :
  NormalizeLabels [7; 3; 7; 9; 3]%Z = ([0; 1; 0; 2; 1]%Z, [7; 3; 9]%Z).
Proof. reflexivity. Qed.

(** A seed that is not negative is the value the generator is seeded
    with. *)
Lemma to_size_t_id z : (0 <= z <= SIZE_MAX)%Z -> to_size_t z = z.
Proof.
  unfold to_size_t, SIZE_MAX. intros Hz. apply Z.mod_small. lia.
Qed.


(** ** The starting point, the labels and the dataset *)

Ltac pick_event := cbv; repeat first [ left; reflexivity | right ].

(** C1 fails on the code.  With [normalize] unset the driver calls [eye()]
    on the default-constructed [distance], which keeps its size: for the
    two-feature sample data the matrix handed to [LearnDistance] has no row
    and no column, and is not the 2x2 identity. *)
Theorem plain_start_is_empty :
  let p := params_of two_features None None false false None None in
  let r := mlpackMain zero_cast returns_start p 0%Z start in
  exists sgd data labels o distance,
    In (Constructed sgd data labels) (events (fst r)) /\
    In (LearnDistance_called o distance) (events (fst r)) /\
    n_rows data = 2 /\
    n_rows distance = 0 /\ n_cols distance = 0 /\
    ~ mat_eq distance (eye_sized (n_rows data) (n_rows data)).
Proof.
  cbv zeta. eexists _, _, _, _, _.
  split; [ pick_event | ]. split; [ pick_event | ].
  cbn. repeat split; try reflexivity.
  intros (Hr & _). discriminate Hr.
Qed.

(** With [normalize] unset, the matrix handed to [LearnDistance] is always
    the empty one. *)
Lemma plain_start_always_empty cast LearnDistance p now o distance :
  CLI.normalize p = false ->
  In (LearnDistance_called o distance)
     (events (fst (mlpackMain cast LearnDistance p now start))) ->
  distance = eye empty /\ n_rows distance = 0 /\ n_cols distance = 0.
Proof.
  intros Hn Hin.
  destruct (LearnDistance_reached _ _ _ _ _ _ Hin) as (data & raw & _ & Hd & _).
  change (CLI.HasParam p "normalize") with (CLI.normalize p) in Hd.
  rewrite Hn, initial_distance_plain in Hd. inversion Hd. auto.
Qed.

(** And every run with [normalize] unset that has a known optimizer and
    readable labels does hand it over. *)
Lemma plain_start_handed_over cast LearnDistance p now data raw :
  CLI.normalize p = false ->
  known_optimizer p = true ->
  snd (load_labels cast p (CLI.input p) start) = Done (data, raw) ->
  In (LearnDistance_called (nca_settings p) (eye empty))
     (events (fst (mlpackMain cast LearnDistance p now start))).
Proof.
  intros Hn Hk Hl.
  apply (@optimization_is_reached cast LearnDistance p now data raw (eye empty));
    try assumption.
  change (CLI.HasParam p "normalize") with (CLI.normalize p).
  rewrite Hn. reflexivity.
Qed.

(** C7, amended: the dataset and the labels the [NCA] object is constructed
    with, in every run that constructs it.  Without [labels], the dataset is
    the input without its last row, and there is one raw label per point,
    a [size_t]: the entry of the last row truncated to an integer (the
    fractional part discarded) whenever that integer is a [size_t].  With
    [labels], the dataset is the input and the raw labels are the ones
    passed.  The [NCA] object gets the raw labels as [NormalizeLabels]
    renumbers them. *)
Theorem labels_and_features cast LearnDistance p now sgd data labels :
  In (Constructed sgd data labels)
     (events (fst (mlpackMain cast LearnDistance p now start))) ->
  let input := CLI.input p in
  match CLI.labels p with
  | None =>
      exists rawLabels,
        labels = fst (NormalizeLabels rawLabels) /\
        List.length rawLabels = n_cols input /\
        (forall i, i < n_cols input ->
           (0 <= nth i rawLabels 0 <= SIZE_MAX)%Z /\
           forall t,
             truncated (elem input (n_rows input - 1) i) = Some t ->
             (0 <= t <= SIZE_MAX)%Z ->
             nth i rawLabels 0%Z = t) /\
        data = shed_row input (n_rows input - 1) /\
        S (n_rows data) = n_rows input /\
        n_cols data = n_cols input /\
        (forall r c, r < n_rows data -> elem data r c = elem input r c)
  | Some given =>
      labels = fst (NormalizeLabels given) /\
      data = input /\ n_rows data = n_rows input
  end.
Proof.
  intros Hin input.
  destruct (Constructed_reached _ _ _ _ _ _ _ Hin) as (raw & Hl & -> & _).
  fold input in Hl.
  destruct (CLI.labels p) as [given |] eqn:Hp.
  - destruct (load_labels_separate _ _ _ Hp Hl) as (-> & -> & _). auto.
  - destruct (load_labels_last_row _ _ _ Hp Hl) as (Hpos & -> & ->).
    destruct (labels_of_row_spec cast input (n_rows input - 1) (n_cols input))
      as (Hlen & Hnth).
    eexists. split; [ reflexivity | ]. split; [ exact Hlen | ].
    split.
    { intros i Hi. rewrite (Hnth i Hi).
      split; [ apply cast_size_t_range | ].
      intros t Ht Hr. apply cast_size_t_truncated; assumption. }
    cbn [shed_row n_rows n_cols elem]. repeat split; try lia.
    intros r c Hr. destruct (r <? n_rows input - 1) eqn:Hlt; [ reflexivity | ].
    apply Nat.ltb_ge in Hlt. lia.
Qed.

Lemma labels_and_features_witness :
  let input := two_features in
  let data := shed_row two_features 2 in
  exists rawLabels,
    [0; 1; 1]%Z = fst (NormalizeLabels rawLabels) /\
    List.length rawLabels = n_cols input /\
    (forall i, i < n_cols input ->
       (0 <= nth i rawLabels 0 <= SIZE_MAX)%Z /\
       forall t,
         truncated (elem input (n_rows input - 1) i) = Some t ->
         (0 <= t <= SIZE_MAX)%Z ->
         nth i rawLabels 0%Z = t) /\
    data = shed_row input (n_rows input - 1) /\
    S (n_rows data) = n_rows input /\
    n_cols data = n_cols input /\
    (forall r c, r < n_rows data -> elem data r c = elem input r c).
Proof.
  apply (@labels_and_features zero_cast returns_start
           (params_of two_features None None false false None None) 0%Z
           true (shed_row two_features 2) [0; 1; 1]%Z).
  pick_event.
Defined.

(** C7 fails on the code as stated: the label of a point is not always the
    entry of the last row truncated to an integer.  An entry of -1 truncates
    to -1, which is no [size_t].  The program has no check: whatever the
    conversion gives and whatever the optimizer does, the run reads the
    labels and constructs the [NCA] object on the two rows of features, and
    the raw label of the first point is a [size_t], not -1. *)
Lemma negative_label_is_not_truncated :
  let p := params_of negative_label None None false false None None in
  truncated (elem negative_label 2 0) = Some (-1)%Z /\
  forall cast LearnDistance,
    exists rawLabels,
      snd (load_labels cast p negative_label start)
      = Done (shed_row negative_label 2, rawLabels) /\
      In (Constructed true (shed_row negative_label 2)
            (fst (NormalizeLabels rawLabels)))
         (events (fst (mlpackMain cast LearnDistance p 0%Z start))) /\
      (0 <= nth 0 rawLabels 0 <= SIZE_MAX)%Z /\
      nth 0 rawLabels 0%Z <> (-1)%Z.
Proof.
  cbv zeta. split; [ vm_compute; reflexivity | ].
  intros cast LearnDistance.
  set (p := params_of negative_label None None false false None None).
  assert (Hl : snd (load_labels cast p negative_label start)
               = Done (shed_row negative_label 2,
                       labels_of_row cast negative_label 2 3)).
  { apply (@load_labels_last_row_defined cast p negative_label);
      [ reflexivity | cbn; lia ]. }
  exists (labels_of_row cast negative_label 2 3).
  split; [ exact Hl | ]. split.
  - apply (@optimization_is_reached cast LearnDistance p 0%Z
             (shed_row negative_label 2)
             (labels_of_row cast negative_label 2 3) (eye empty));
      [ reflexivity | exact Hl | reflexivity ].
  - destruct (labels_of_row_spec cast negative_label 2 3) as (_ & Hnth).
    rewrite (Hnth 0 ltac:(lia)).
    pose proof (cast_size_t_range cast (elem negative_label 2 0)) as Hr.
    split; [ exact Hr | lia ].
Qed.

Lemma configuration_error_is_fatal_witness :
  (let r := mlpackMain zero_cast returns_start
              (params_of two_features None (Some "adam") false false None None)
              0%Z start in
   snd r = Thrown RuntimeError /\
   (exists s logs m,
      events (fst r) = Seeded s :: logs ++ [Logged Fatal m] /\
      Forall is_log logs) /\
   Forall (fun e => ~ is_optimization e) (events (fst r))) /\
  (let r := mlpackMain zero_cast returns_start
              (params_of ten_points (Some [0; 0; 0; 0; 0; 1; 1; 1; 1]%Z) None
                         false false None None)
              0%Z start in
   snd r = Thrown RuntimeError /\
   (exists s logs m,
      events (fst r) = Seeded s :: logs ++ [Logged Fatal m] /\
      Forall is_log logs) /\
   Forall (fun e => ~ is_optimization e) (events (fst r))).
Proof.
  split.
  - apply configuration_error_is_fatal. left. reflexivity.
  - apply configuration_error_is_fatal. right.
    exists [0; 0; 0; 0; 0; 1; 1; 1; 1]%Z. split; [ reflexivity | ].
    cbn. lia.
Defined.

Lemma fix_range_nonzero r : PrimFloat.eqb (fix_range r) 0%float = false.
Proof.
  unfold fix_range. destruct (PrimFloat.eqb r 0%float) eqn:E.
  - reflexivity.
  - exact E.
Qed.

(** C5 fails on the code as stated: replacing the ranges equal to 0 does not
    keep every entry finite.  A feature with the values 0 and 2^-1074 has a
    range that is not 0, and its inverse overflows to infinity. *)
Lemma tiny_range_gives_infinite_start :
  let p := params_of tiny_range None None true false None None in
  let r := mlpackMain zero_cast returns_start p 0%Z start in
  exists o distance,
    In (LearnDistance_called o distance) (events (fst r)) /\
    n_rows distance = 1 /\ n_cols distance = 1 /\
    PrimFloat.is_infinity (elem distance 0 0) = true.
Proof.
  cbv zeta. eexists _, _. split; [ pick_event | ].
  repeat split; vm_compute; reflexivity.
Qed.

(** C5, amended: with [normalize] set, the matrix handed to [LearnDistance]
    is square of the size of the dataset's features, zero off the diagonal,
    and holds on the diagonal the inverse of each feature's range, a range
    equal to 0 being replaced by 1 first.  No entry is the result of a
    division by zero, and the entry of a feature of range 0 is 1. *)
Theorem normalized_start cast LearnDistance p now o distance :
  CLI.normalize p = true ->
  In (LearnDistance_called o distance)
     (events (fst (mlpackMain cast LearnDistance p now start))) ->
  exists sgd data labels,
    In (Constructed sgd data labels)
       (events (fst (mlpackMain cast LearnDistance p now start))) /\
    n_rows distance = n_rows data /\ n_cols distance = n_rows data /\
    forall i j, i < n_rows data -> j < n_rows data ->
      elem distance i j =
        (if i =? j then PrimFloat.div 1%float (fix_range (range data i))
         else 0%float) /\
      PrimFloat.eqb (fix_range (range data i)) 0%float = false /\
      (PrimFloat.eqb (range data i) 0%float = true ->
       elem distance i i = 1%float).
Proof.
  intros Hn Hin.
  destruct (LearnDistance_reached _ _ _ _ _ _ Hin)
    as (data & raw & _ & Hd & _ & Hc).
  change (CLI.HasParam p "normalize") with (CLI.normalize p) in Hd.
  rewrite Hn in Hd. apply initial_distance_normalized in Hd.
  destruct Hd as (Hshape & ->).
  exists (uses_sgd p), data, (fst (NormalizeLabels raw)).
  split; [ exact Hc | ].
  assert (Hsize : n_rows data * (if n_cols data =? 0 then 0 else 1)
                  = n_rows data).
  { destruct (n_cols data =? 0) eqn:E; [ | lia ].
    apply Nat.eqb_eq in E. lia. }
  cbn [diagmat map1 map2 max_rows min_rows n_elem n_rows n_cols elem].
  repeat (split; [ exact Hsize | ]).
  intros i j Hi Hj. fold (range data i).
  split; [ reflexivity | ]. split; [ apply fix_range_nonzero | ].
  intros Hz. rewrite Nat.eqb_refl. unfold fix_range. rewrite Hz. reflexivity.
Qed.

Lemma normalized_start_witness :
  exists sgd data labels,
    In (Constructed sgd data labels)
       (events (fst (mlpackMain zero_cast returns_start normalized_sample 0%Z start))) /\
    n_rows normalized_sample_start = n_rows data /\
    n_cols normalized_sample_start = n_rows data /\
    forall i j, i < n_rows data -> j < n_rows data ->
      elem normalized_sample_start i j =
        (if i =? j then PrimFloat.div 1%float (fix_range (range data i))
         else 0%float) /\
      PrimFloat.eqb (fix_range (range data i)) 0%float = false /\
      (PrimFloat.eqb (range data i) 0%float = true ->
       elem normalized_sample_start i i = 1%float).
Proof.
  apply (@normalized_start zero_cast returns_start normalized_sample 0%Z
           (nca_settings normalized_sample) normalized_sample_start).
  - reflexivity.
  - pick_event.
Defined.

(** On the sample data the starting point is diag(1/10, 1). *)
Example normalized_sample_start_entries :
  map (fun ij => elem normalized_sample_start (fst ij) (snd ij))
      [(0, 0); (0, 1); (1, 0); (1, 1)]
  = [PrimFloat.div 1 10; 0; 0; 1]%float.
Proof. vm_compute. reflexivity. Qed.

(** ** Notices on ignored parameters *)

Lemma not_a_notice_ok p e : not_a_notice e -> notice_ok p e.
Proof. destruct e as [| l [] | | |]; simpl; tauto. Qed.

Lemma steady_ReportIgnoredParam_ok p name reason :
  (if uses_sgd p then In name (lbfgs_only ++ ["batch_size"])
   else In name sgd_only) ->
  steady (notice_ok p) (ReportIgnoredParam p name reason).
Proof.
  intros Hname. unfold ReportIgnoredParam, Log.
  destruct (CLI.HasParam p name) eqn:Hp.
  - apply steady_emit. simpl. auto.
  - apply steady_ret.
Qed.

Lemma steady_warn_unused_ok p :
  steady (notice_ok p) (warn_unused p (CLI.GetParam_string p "optimizer")).
Proof.
  unfold warn_unused. fold (uses_sgd p).
  destruct (uses_sgd p) eqn:Hs.
  - repeat (apply steady_bind; [ | intros ? ]);
      apply steady_ReportIgnoredParam_ok; rewrite Hs; simpl; tauto.
  - destruct (CLI.GetParam_string p "optimizer" =? "lbfgs")%string.
    + repeat (apply steady_bind; [ | intros ? ]);
        apply steady_ReportIgnoredParam_ok; rewrite Hs; simpl; tauto.
    + apply steady_ret.
Qed.

Lemma notices cast LearnDistance p now :
  Forall (notice_ok p) (events (fst (mlpackMain cast LearnDistance p now start))).
Proof.
  unfold mlpackMain. rewrite bind_run, seed_generator_run. cbn [fst snd].
  match goal with
  | |- context [fst (?k ?w)] => assert (Hk : steady (notice_ok p) k)
  end.
  { apply steady_bind.
    { apply (steady_weaken (P := not_a_notice)); [ apply not_a_notice_ok | ].
      unfold RequireAtLeastOnePassed, Log, Log_Fatal. steady_tac. }
    intros _. cbv zeta. apply steady_bind.
    { apply (steady_weaken (P := not_a_notice)); [ apply not_a_notice_ok | ].
      unfold RequireParamInSet, Log, Log_Fatal. cbv zeta. steady_tac. }
    intros _. apply steady_bind; [ apply steady_warn_unused_ok | ].
    intros _. apply (steady_weaken (P := not_a_notice));
      [ apply not_a_notice_ok | ].
    unfold load_labels, initial_distance, optimize, Log, Log_Fatal.
    cbv zeta. steady_tac. }
  match goal with
  | |- context [fst (?k ?w)] => destruct (Hk w) as (t & F & E & _)
  end.
  rewrite E. cbn. constructor; [ exact I | exact F ].
Qed.

(** Events stay once they have happened. *)
Lemma In_after {A : Type} (P : Event -> Prop) (k : M A) (w : World) e :
  steady P k -> In e (events w) -> In e (events (fst (k w))).
Proof.
  intros Hk Hin. destruct (Hk w) as (t & _ & E & _).
  rewrite E. apply in_or_app. left. exact Hin.
Qed.

Lemma ReportIgnoredParam_passed p name reason w :
  CLI.HasParam p name = true ->
  In (Logged Warn (Ignored name reason))
     (events (fst (ReportIgnoredParam p name reason w))).
Proof.
  intros Hp. unfold ReportIgnoredParam, Log. rewrite Hp. cbn.
  apply in_or_app. right. left. reflexivity.
Qed.

Lemma warn_unused_sgd_batch_size p w :
  CLI.HasParam p "batch_size" = true ->
  In (Logged Warn (Ignored "batch_size" "L-BFGS optimizer is not being used"))
     (events (fst (warn_unused p "sgd" w))).
Proof.
  intros Hp. unfold warn_unused. cbn [String.eqb Ascii.eqb Bool.eqb].
  repeat rewrite bind_run, ReportIgnoredParam_done.
  apply ReportIgnoredParam_passed. exact Hp.
Qed.

(** Under SGD, a [batch_size] that was passed is reported as ignored, and
    the optimizer is given it as its batch size. *)
Lemma sgd_batch_size_notice cast LearnDistance p now b :
  CLI.GetParam_string p "optimizer" = "sgd" ->
  CLI.batch_size p = Some b ->
  let r := mlpackMain cast LearnDistance p now start in
  In (Logged Warn (Ignored "batch_size" "L-BFGS optimizer is not being used"))
     (events (fst r)) /\
  forall o distance,
    In (LearnDistance_called o distance) (events (fst r)) ->
    exists s, o = WithSGD s /\ SGD.BatchSize s = to_size_t b.
Proof.
  intros Ho Hb r. split.
  - subst r. unfold mlpackMain.
    rewrite bind_run, seed_generator_run. cbn [fst snd].
    rewrite bind_run, RequireAtLeastOnePassed_done.
    rewrite bind_run, RequireParamInSet_run.
    unfold known_optimizer. rewrite Ho. cbn [existsb String.eqb Ascii.eqb
      Bool.eqb orb]. cbn [fst snd].
    rewrite bind_run, warn_unused_done.
    match goal with
    | |- In _ (events (fst (?k ?w))) =>
        apply (@In_after _ not_seeding k w)
    end.
    + unfold optimize. cbv zeta. steady_main log_not_seeding.
    + apply warn_unused_sgd_batch_size. cbn. rewrite Hb. reflexivity.
  - intros o distance Hin.
    destruct (LearnDistance_reached _ _ _ _ _ _ Hin) as (_ & _ & _ & _ & -> & _).
    unfold nca_settings. rewrite Ho. cbn [String.eqb Ascii.eqb Bool.eqb].
    eexists. split; [ reflexivity | ]. cbn. rewrite Hb. reflexivity.
Qed.

(** C2 fails on the code.  Under SGD with [batch_size] passed as 2, the run
    reports [batch_size] as ignored "because the L-BFGS optimizer is not
    being used", and yet the SGD optimizer gets 2 as its batch size. *)
Theorem sgd_reports_batch_size_ignored :
  let p := params_of two_features None (Some "sgd") false false (Some 2%Z)
                     None in
  let r := mlpackMain zero_cast returns_start p 0%Z start in
  In (Logged Warn (Ignored "batch_size" "L-BFGS optimizer is not being used"))
     (events (fst r)) /\
  exists s distance,
    In (LearnDistance_called (WithSGD s) distance) (events (fst r)) /\
    SGD.BatchSize s = 2%Z.
Proof.
  cbv zeta. split; [ pick_event | ].
  eexists _, _. split; [ pick_event | reflexivity ].
Qed.

(** ** Runs that differ in the wall-clock time only *)

(** C8: with [seed] not 0 and [linear_scan] set, two runs of the SGD
    optimizer on the same parameters, at different times, are equal: they
    seed the generator alike, hand the same dataset, labels, settings and
    starting point to [LearnDistance], with shuffling off, and save the same
    matrix. *)
Theorem fixed_seed_runs_agree cast LearnDistance p now now' :
  CLI.GetParam_int p "seed" <> 0%Z ->
  CLI.linear_scan p = true ->
  CLI.GetParam_string p "optimizer" = "sgd" ->
  mlpackMain cast LearnDistance p now start = mlpackMain cast LearnDistance p now' start
  /\
  forall o distance,
    In (LearnDistance_called o distance)
       (events (fst (mlpackMain cast LearnDistance p now start))) ->
    exists s, o = WithSGD s /\ SGD.Shuffle s = false.
Proof.
  intros Hseed Hscan Ho. split.
  - unfold mlpackMain. rewrite !bind_run, !seed_generator_run.
    apply Z.eqb_neq in Hseed. rewrite Hseed. reflexivity.
  - intros o distance Hin.
    destruct (LearnDistance_reached _ _ _ _ _ _ Hin) as (_ & _ & _ & _ & -> & _).
    unfold nca_settings. rewrite Ho. cbn [String.eqb Ascii.eqb Bool.eqb].
    eexists. split; [ reflexivity | ]. cbn. rewrite Hscan. reflexivity.
Qed.

Lemma fixed_seed_runs_agree_witness :
  let p := params_of two_features None (Some "sgd") false true None
                     (Some 42%Z) in
  mlpackMain zero_cast returns_start p 1000%Z start
  = mlpackMain zero_cast returns_start p 2000%Z start /\
  forall o distance,
    In (LearnDistance_called o distance)
       (events (fst (mlpackMain zero_cast returns_start p 1000%Z start))) ->
    exists s, o = WithSGD s /\ SGD.Shuffle s = false.
Proof.
  cbv zeta. apply fixed_seed_runs_agree.
  - cbn. discriminate.
  - reflexivity.
  - reflexivity.
Defined.

(** With [seed] left at 0 the generator is seeded by the clock, and the two
    runs differ. *)
Lemma clock_seed_runs_differ :
  let p := params_of two_features None (Some "sgd") false true None None in
  generator (fst (mlpackMain zero_cast returns_start p 1000%Z start)) = Some 1000%Z /\
  generator (fst (mlpackMain zero_cast returns_start p 2000%Z start)) = Some 2000%Z.
Proof. cbv zeta. split; reflexivity. Qed.


(** ** Whitening over the real numbers *)

Section RealSums.
Local Open Scope R_scope.

Lemma rsum_0 f : rsum 0 f = 0.
Proof. reflexivity. Qed.

Lemma rsum_S n f : rsum (S n) f = rsum n f + f n.
Proof. reflexivity. Qed.

Lemma rsum_ext n f g :
  (forall k, (k < n)%nat -> f k = g k) -> rsum n f = rsum n g.
Proof.
  induction n as [| n IH]; intros Hfg; [ reflexivity | ].
  rewrite !rsum_S, IH, Hfg by auto with arith. reflexivity.
Qed.

Lemma rsum_zero n : rsum n (fun _ => 0) = 0.
Proof.
  induction n as [| n IH]; [ reflexivity | rewrite rsum_S, IH; lra ].
Qed.

Lemma rsum_plus n f g :
  rsum n (fun k => f k + g k) = rsum n f + rsum n g.
Proof.
  induction n as [| n IH]; [ rewrite !rsum_0; lra | ].
  rewrite !rsum_S, IH. lra.
Qed.

Lemma rsum_minus n f g :
  rsum n (fun k => f k - g k) = rsum n f - rsum n g.
Proof.
  induction n as [| n IH]; [ rewrite !rsum_0; lra | ].
  rewrite !rsum_S, IH. lra.
Qed.

Lemma rsum_scal_l n c f : rsum n (fun k => c * f k) = c * rsum n f.
Proof.
  induction n as [| n IH]; [ rewrite !rsum_0; lra | ].
  rewrite !rsum_S, IH. lra.
Qed.

Lemma rsum_scal_r n c f : rsum n (fun k => f k * c) = rsum n f * c.
Proof.
  induction n as [| n IH]; [ rewrite !rsum_0; lra | ].
  rewrite !rsum_S, IH. lra.
Qed.

Lemma rsum_const n c : rsum n (fun _ => c) = INR n * c.
Proof.
  induction n as [| n IH]; [ rewrite rsum_0; simpl; lra | ].
  rewrite rsum_S, IH, S_INR. lra.
Qed.

Lemma rsum_swap n m (f : nat -> nat -> R) :
  rsum n (fun i => rsum m (fun j => f i j))
  = rsum m (fun j => rsum n (fun i => f i j)).
Proof.
  induction n as [| n IH].
  - rewrite rsum_0. symmetry. apply rsum_zero.
  - rewrite rsum_S, IH. rewrite <- rsum_plus. reflexivity.
Qed.

Lemma rsum_nonneg n f : (forall k, 0 <= f k) -> 0 <= rsum n f.
Proof.
  intros Hf. induction n as [| n IH]; [ rewrite rsum_0; lra | ].
  rewrite rsum_S. specialize (Hf n). lra.
Qed.

(** A sum against the row of a diagonal matrix keeps one term. *)
Lemma rsum_diag n i (d : R) f :
  (i < n)%nat ->
  rsum n (fun k => (if (i =? k)%nat then d else 0) * f k) = d * f i.
Proof.
  induction n as [| n IH]; intros Hi; [ lia | ].
  rewrite rsum_S. destruct (Nat.eq_dec i n) as [-> | Hne].
  - rewrite Nat.eqb_refl.
    rewrite (rsum_ext _ (fun _ => 0)), rsum_zero; [ lra | ].
    intros k Hk. destruct (Nat.eqb_spec n k); [ lia | lra ].
  - rewrite IH by lia. destruct (Nat.eqb_spec i n); [ lia | lra ].
Qed.

(** The products of two linear images of the columns of [x], summed over
    the columns, come from the sums of products of the rows of [x]. *)
Lemma rsum_gram n d (a b : nat -> R) (x : nat -> nat -> R) :
  rsum n (fun k => rsum d (fun p => a p * x p k)
                   * rsum d (fun q => b q * x q k))
  = rsum d (fun p => rsum d (fun q =>
      a p * b q * rsum n (fun k => x p k * x q k))).
Proof.
  transitivity
    (rsum n (fun k => rsum d (fun p => rsum d (fun q =>
       a p * b q * (x p k * x q k))))).
  - apply rsum_ext. intros k _.
    rewrite <- rsum_scal_r. apply rsum_ext. intros p _.
    rewrite <- rsum_scal_l. apply rsum_ext. intros q _. ring.
  - rewrite rsum_swap. apply rsum_ext. intros p _.
    rewrite rsum_swap. apply rsum_ext. intros q _.
    apply rsum_scal_l.
Qed.

End RealSums.


Section Covariance.
Local Open Scope R_scope.

Lemma each_col_sub_mean (input : Mat R) :
  (0 < n_cols input)%nat ->
  each_col sub input (mean_rows input) = Some (centred input).
Proof.
  intros Hn. unfold each_col, mean_rows. cbn [n_rows n_cols].
  destruct (Nat.eqb_spec (n_cols input) 0) as [E | _]; [ lia | ].
  rewrite Nat.eqb_refl. reflexivity.
Qed.

Lemma each_col_sub_mean_None (input : Mat R) :
  n_cols input = 0%nat -> each_col sub input (mean_rows input) = None.
Proof.
  intros Hn. unfold each_col, mean_rows. cbn [n_rows n_cols].
  rewrite Hn. cbn. rewrite andb_false_r. reflexivity.
Qed.

Lemma normVal_pos (n : nat) :
  0 < INR (if (1 <? n)%nat then n - 1 else 1).
Proof.
  apply lt_0_INR. destruct (Nat.ltb_spec 1 n); lia.
Qed.

(** The rows of a centred matrix sum to 0, and so do their linear
    images. *)
Lemma centred_row_sum (input : Mat R) i :
  (0 < n_cols input)%nat ->
  rsum (n_cols input) (fun k => elem (centred input) i k) = 0.
Proof.
  intros Hn. unfold centred, mean_rows. cbn [elem n_cols].
  rewrite rsum_minus, rsum_const.
  cbn [div of_nat R_Scalar]. fold (rsum (n_cols input) (fun k => elem input i k)).
  assert (INR (n_cols input) <> 0) by (apply not_0_INR; lia).
  change (fun k : nat => elem input i k) with (elem input i).
  field. assumption.
Qed.

Lemma mean_rows_zero (x : Mat R) i :
  rsum (n_cols x) (fun k => elem x i k) = 0 ->
  elem (mean_rows x) i 0 = 0.
Proof.
  intros Hs. unfold mean_rows. cbn [elem div of_nat R_Scalar].
  fold (rsum (n_cols x) (fun k => elem x i k)). rewrite Hs.
  unfold Rdiv. ring.
Qed.

(** The covariance of a matrix whose rows sum to 0. *)
Lemma ColumnCovariance_centred (x : Mat R) i j :
  (forall r, rsum (n_cols x) (fun k => elem x r k) = 0) ->
  elem (ColumnCovariance x) i j
  = rsum (n_cols x) (fun k => elem x i k * elem x j k)
    / INR (if (1 <? n_cols x)%nat then n_cols x - 1 else 1).
Proof.
  intros Hs. unfold ColumnCovariance.
  cbn [elem div mul sub of_nat R_Scalar].
  rewrite !mean_rows_zero by apply Hs.
  f_equal. apply rsum_ext. intros k _. ring.
Qed.

(** A covariance matrix is positive semi-definite. *)
Lemma ColumnCovariance_psd (x : Mat R) (v : nat -> R) :
  0 <= rsum (n_rows x) (fun a => rsum (n_rows x) (fun b =>
         v a * v b * elem (ColumnCovariance x) a b)).
Proof.
  unfold ColumnCovariance. cbn [elem div mul sub of_nat R_Scalar].
  set (z := fun a k => elem x a k - elem (mean_rows x) a 0).
  set (nv := INR _).
  assert (Hnv : 0 < nv) by apply normVal_pos.
  rewrite (rsum_ext _
    (fun a => rsum (n_rows x) (fun b =>
       v a * v b * rsum (n_cols x) (fun k => z a k * z b k)) * / nv)).
  2:{ intros a _. rewrite <- rsum_scal_r. apply rsum_ext. intros b _.
      unfold Rdiv.
      change (accu (n_cols x)
                (fun k => (elem x a k - elem (mean_rows x) a 0) *
                          (elem x b k - elem (mean_rows x) b 0)))
        with (rsum (n_cols x) (fun k => z a k * z b k)).
      ring. }
  rewrite rsum_scal_r, <- rsum_gram.
  apply Rmult_le_pos.
  - apply rsum_nonneg. intros k. apply Rle_0_sqr.
  - apply Rlt_le, Rinv_0_lt_compat, Hnv.
Qed.

End Covariance.

Section Eigenvalues.
Local Open Scope R_scope.

Variable eig_sym : Mat R -> Mat R * Mat R.
Variable input : Mat R.
Hypothesis contract : eig_sym_ok eig_sym input.

Lemma eigenvalue_nonneg j :
  (j < n_rows input)%nat -> 0 <= elem (eigval_of eig_sym input) j 0.
Proof.
  intros Hj.
  destruct contract as (_ & _ & _ & _ & Hortho & Heig & _).
  cbn [covariance_of ColumnCovariance n_rows centred] in Hortho, Heig.
  set (lam := eigval_of eig_sym input) in *.
  set (V := eigvec_of eig_sym input) in *.
  set (n := n_rows input) in *.
  assert (E : elem lam j 0
              = rsum n (fun a => rsum n (fun b =>
                  elem V a j * elem V b j
                  * elem (ColumnCovariance (centred input)) a b))).
  { transitivity (rsum n (fun a => elem V a j * (elem lam j 0 * elem V a j))).
    - rewrite (rsum_ext _ (fun a => elem lam j 0
                                    * (elem V a j * elem V a j)))
        by (intros; ring).
      rewrite rsum_scal_l, (Hortho j j Hj Hj), Nat.eqb_refl. ring.
    - apply rsum_ext. intros a Ha. rewrite <- (Heig a j Ha Hj).
      rewrite <- rsum_scal_l. apply rsum_ext. intros b _.
      unfold covariance_of. ring. }
  rewrite E. apply (ColumnCovariance_psd (centred input) (fun a => elem V a j)).
Qed.

Lemma eigenvalue_pos j :
  full_rank (covariance_of input) ->
  (j < n_rows input)%nat -> 0 < elem (eigval_of eig_sym input) j 0.
Proof.
  intros Hfull Hj. pose proof (eigenvalue_nonneg Hj) as Hge.
  destruct (Req_dec (elem (eigval_of eig_sym input) j 0) 0) as [Hz | Hnz];
    [ exfalso | lra ].
  destruct contract as (_ & _ & _ & _ & Hortho & Heig & _).
  cbn [covariance_of ColumnCovariance n_rows centred] in Hortho, Heig.
  assert (Hv : forall a, (a < n_rows input)%nat ->
                         elem (eigvec_of eig_sym input) a j = 0).
  { apply (Hfull (fun a => elem (eigvec_of eig_sym input) a j)).
    intros i Hi. cbn [covariance_of ColumnCovariance n_rows n_cols centred]
      in Hi |- *.
    rewrite (Heig i j Hi Hj), Hz. ring. }
  specialize (Hortho j j Hj Hj). rewrite Nat.eqb_refl in Hortho.
  rewrite (rsum_ext _ (fun _ => 0)), rsum_zero in Hortho; [ lra | ].
  intros a Ha. rewrite (Hv a Ha). ring.
Qed.

End Eigenvalues.

Section Whitened.
Local Open Scope R_scope.

Variable eig_sym : Mat R -> Mat R * Mat R.

(** What [Transform] returns, when it returns. *)
Lemma Transform_inv (self : t) (input : Mat R) st output :
  Transform eig_sym self input = Some (st, output) ->
  (0 < n_cols input)%nat /\
  st = mk (mean_rows input) (eigvec_of eig_sym input) (epsilon self)
          (map1 (fun v => v + epsilon self) (eigval_of eig_sym input)) /\
  output =
    times (times (diagmat (map1 (Rdiv 1)
                     (map1 R_sqrt.sqrt
                        (map1 (fun v => v + epsilon self)
                              (eigval_of eig_sym input)))))
                 (trans (eigvec_of eig_sym input)))
          (centred input).
Proof.
  unfold Transform. destruct (Nat.eq_dec (n_cols input) 0) as [Hz | Hnz].
  - rewrite each_col_sub_mean_None by exact Hz. discriminate.
  - rewrite each_col_sub_mean by lia.
    unfold eigval_of, eigvec_of, covariance_of.
    destruct (eig_sym (ColumnCovariance (centred input))) as [lam V].
    intros Hs. inversion Hs. split; [ lia | ]. split; reflexivity.
Qed.

Lemma Transform_some (self : t) (input : Mat R) :
  (0 < n_cols input)%nat ->
  exists st output, Transform eig_sym self input = Some (st, output).
Proof.
  intros Hn. unfold Transform. rewrite each_col_sub_mean by exact Hn.
  destruct (eig_sym _) as [lam V]. eauto.
Qed.

Variable input : Mat R.
Hypothesis contract : eig_sym_ok eig_sym input.

(** The shape and the elements of the whitened matrix. *)
Lemma whitened_shape (self : t) st output :
  Transform eig_sym self input = Some (st, output) ->
  n_rows output = n_rows input /\ n_cols output = n_cols input /\
  n_elem (eigenValues st) = n_rows input.
Proof.
  intros Ht. destruct (Transform_inv _ _ Ht) as (_ & -> & ->).
  destruct contract as (Hr & Hc & _).
  cbn [covariance_of ColumnCovariance n_rows] in Hr.
  cbn [times diagmat map1 n_rows n_cols centred eigenValues].
  unfold n_elem. cbn [map1 n_rows n_cols].
  rewrite Hr, Hc. cbn [centred n_rows]. repeat split; lia.
Qed.

Lemma whitened_elem (self : t) st output i k :
  Transform eig_sym self input = Some (st, output) ->
  (i < n_rows input)%nat ->
  elem output i k
  = 1 / R_sqrt.sqrt (elem (eigval_of eig_sym input) i 0 + epsilon self)
    * rsum (n_rows input)
           (fun a => elem (eigvec_of eig_sym input) a i
                     * elem (centred input) a k).
Proof.
  intros Ht Hi. destruct (Transform_inv _ _ Ht) as (_ & _ & ->).
  destruct contract as (Hr & Hc & Hvr & _).
  cbn [covariance_of ColumnCovariance n_rows] in Hr, Hvr.
  cbn [times diagmat map1 trans n_rows n_cols elem mul zero R_Scalar].
  unfold n_elem. cbn [map1 n_rows n_cols].
  rewrite Hr, Hc, Hvr. cbn [centred n_rows]. rewrite Nat.mul_1_r.
  change (accu (n_rows input)) with (rsum (n_rows input)).
  rewrite <- rsum_scal_l. apply rsum_ext. intros a Ha.
  change (accu (n_rows input)) with (rsum (n_rows input)).
  rewrite (rsum_diag _ _ Hi). ring.
Qed.

(** Each row of the whitened matrix sums to 0. *)
Lemma whitened_row_sum (self : t) st output i :
  Transform eig_sym self input = Some (st, output) ->
  (i < n_rows input)%nat ->
  rsum (n_cols output) (fun k => elem output i k) = 0.
Proof.
  intros Ht Hi. destruct (whitened_shape _ Ht) as (_ & -> & _).
  destruct (Transform_inv _ _ Ht) as (Hn & _ & _).
  rewrite (rsum_ext _ _ (fun k _ => @whitened_elem self st output i k Ht Hi)).
  rewrite rsum_scal_l, rsum_swap.
  rewrite (rsum_ext _ (fun _ => 0)), rsum_zero; [ ring | ].
  intros a _. rewrite rsum_scal_l, centred_row_sum by exact Hn. ring.
Qed.

End Whitened.

(** ** The properties of [Transform] *)

Section TransformProperties.
Local Open Scope R_scope.

Variable eig_sym : Mat R -> Mat R * Mat R.
Variable input : Mat R.
Hypothesis contract : eig_sym_ok eig_sym input.
Variable self : @t R.

(** C10, amended: over the real numbers, with a regularization parameter
    above 0, every eigenvalue [Transform] stores is an eigenvalue of the
    covariance, which is not negative, plus the parameter.  The denominators
    of line 72 are the square roots of the stored eigenvalues, all above 0,
    whatever the rank of the input, and [output] is the product of line 72
    with these denominators: its entry (i, k) is the component of the
    centred point [k] along eigenvector [i], divided by denominator [i].
    ([Transform_some] says when [Transform] returns.) *)
Theorem denominators_positive st output :
  0 < epsilon self ->
  Transform eig_sym self input = Some (st, output) ->
  let denominators := map1 R_sqrt.sqrt (eigenValues st) in
  n_elem (eigenValues st) = n_rows input /\
  (forall i, (i < n_rows input)%nat ->
     elem (eigenValues st) i 0
       = elem (eigval_of eig_sym input) i 0 + epsilon self /\
     0 <= elem (eigval_of eig_sym input) i 0 /\
     0 < elem denominators i 0) /\
  output = times (times (diagmat (map1 (Rdiv 1) denominators))
                        (trans (eigenVectors st)))
                 (centred input) /\
  forall i k, (i < n_rows input)%nat ->
    elem output i k
    = rsum (n_rows input)
           (fun a => elem (eigenVectors st) a i * elem (centred input) a k)
      / elem denominators i 0.
Proof.
  intros Heps Ht denominators.
  split; [ apply (whitened_shape contract _ Ht) | ].
  assert (Hpos : forall i, (i < n_rows input)%nat ->
            0 <= elem (eigval_of eig_sym input) i 0 /\
            0 < R_sqrt.sqrt (elem (eigval_of eig_sym input) i 0
                             + epsilon self)).
  { intros i Hi. pose proof (eigenvalue_nonneg contract Hi) as Hge.
    split; [ exact Hge | apply sqrt_lt_R0; lra ]. }
  pose proof (fun i k => @whitened_elem eig_sym input contract self st output
                           i k Ht) as Hel.
  destruct (Transform_inv _ _ _ Ht) as (_ & Hst & Hout).
  subst denominators. rewrite Hst. cbn [eigenValues eigenVectors map1 elem].
  split; [ | split; [ exact Hout | ] ].
  - intros i Hi. destruct (Hpos i Hi) as (Hge & Hs).
    split; [ reflexivity | ]. split; assumption.
  - intros i k Hi. destruct (Hpos i Hi) as (_ & Hs).
    rewrite (Hel i k Hi). field. lra.
Qed.

(** C6: without regularization, on an input with at least one point whose
    covariance has full rank, [Transform] returns a matrix of the shape of
    the input whose covariance is the identity and whose features have mean
    0.  (Over the real numbers.) *)
Theorem whitened_covariance_is_identity :
  (0 < n_cols input)%nat ->
  full_rank (covariance_of input) ->
  epsilon self = 0 ->
  exists st output,
    Transform eig_sym self input = Some (st, output) /\
    n_rows output = n_rows input /\ n_cols output = n_cols input /\
    mat_eq (ColumnCovariance output)
           (eye_sized (n_rows input) (n_rows input)) /\
    forall i, (i < n_rows input)%nat -> elem (mean_rows output) i 0 = 0.
Proof.
  intros Hn Hfull Heps.
  destruct (Transform_some eig_sym self input Hn) as (st & output & Ht).
  exists st, output. split; [ exact Ht | ].
  destruct (whitened_shape contract _ Ht) as (Hr & Hc & _).
  split; [ exact Hr | ]. split; [ exact Hc | ].
  assert (Hsum : forall r, rsum (n_cols output) (fun k => elem output r k)
                           = 0 \/ (n_rows input <= r)%nat).
  { intros r. destruct (Nat.lt_ge_cases r (n_rows input)) as [Hlt | Hge];
      [ left; apply (whitened_row_sum contract _ Ht Hlt) | right; exact Hge ]. }
  split.
  2:{ intros i Hi. apply mean_rows_zero.
      apply (whitened_row_sum contract _ Ht Hi). }
  unfold mat_eq. cbn [ColumnCovariance eye_sized n_rows n_cols].
  split; [ exact Hr | ]. split; [ exact Hr | ].
  rewrite Hr. intros i j Hi Hj.
  unfold ColumnCovariance, eye_sized.
  cbn [elem div mul sub of_nat one zero R_Scalar].
  rewrite !mean_rows_zero by (apply (whitened_row_sum contract _ Ht); assumption).
  rewrite Hc.
  set (nv := INR (if (1 <? n_cols input)%nat then n_cols input - 1 else 1)).
  assert (Hnv : 0 < nv) by apply normVal_pos.
  set (lam := eigval_of eig_sym input).
  set (V := eigvec_of eig_sym input).
  set (s := fun r => 1 / R_sqrt.sqrt (elem lam r 0 + epsilon self)).
  change (accu (n_cols input)) with (rsum (n_cols input)).
  rewrite (rsum_ext _
    (fun k => (s i * s j)
              * (rsum (n_rows input) (fun p => elem V p i
                                               * elem (centred input) p k)
                 * rsum (n_rows input) (fun q => elem V q j
                                               * elem (centred input) q k)))).
  2:{ intros k _.
      rewrite (whitened_elem contract _ k Ht Hi), (whitened_elem contract _ k Ht Hj).
      fold lam V. unfold s. ring. }
  rewrite rsum_scal_l, rsum_gram.
  destruct contract as (_ & _ & _ & _ & Hortho & Heig & _).
  cbn [covariance_of ColumnCovariance n_rows centred] in Hortho, Heig.
  fold lam V in Hortho, Heig.
  assert (Hcov : forall p q,
            rsum (n_cols input) (fun k => elem (centred input) p k
                                          * elem (centred input) q k)
            = nv * elem (covariance_of input) p q).
  { intros p q. unfold covariance_of.
    rewrite ColumnCovariance_centred
      by (intros r; exact (@centred_row_sum input r Hn)).
    cbn [centred n_cols]. fold nv. field. lra. }
  rewrite (rsum_ext _
    (fun p => nv * (elem V p i * (elem lam j 0 * elem V p j)))).
  2:{ intros p Hp. rewrite <- (Heig p j Hp Hj).
      rewrite <- !rsum_scal_l. apply rsum_ext. intros q _.
      rewrite Hcov. unfold covariance_of. ring. }
  rewrite rsum_scal_l.
  rewrite (rsum_ext _ (fun p => elem lam j 0 * (elem V p i * elem V p j)))
    by (intros; ring).
  rewrite rsum_scal_l, (Hortho i j Hi Hj).
  destruct (Nat.eqb_spec i j) as [-> | Hne].
  - pose proof (eigenvalue_pos contract Hfull Hj) as Hpos. fold lam in Hpos.
    unfold s. rewrite Heps, Rplus_0_r.
    assert (Hsq : R_sqrt.sqrt (elem lam j 0) * R_sqrt.sqrt (elem lam j 0)
                  = elem lam j 0) by (apply sqrt_sqrt; lra).
    assert (Hs0 : 0 < R_sqrt.sqrt (elem lam j 0)) by (apply sqrt_lt_R0; lra).
    rewrite <- Hsq at 3. field. split; lra.
  - field. lra.
Qed.

End TransformProperties.

(** ** A sample dataset with correlated features *)

Section Correlated.
Local Open Scope R_scope.

Ltac two_cases i H :=
  destruct i as [| [| i]]; [ | | exfalso; cbn in H; lia ].

Lemma correlated_covariance :
  elem (covariance_of correlated) 0 0 = 73 /\
  elem (covariance_of correlated) 0 1 = 36 /\
  elem (covariance_of correlated) 1 0 = 36 /\
  elem (covariance_of correlated) 1 1 = 52.
Proof.
  unfold covariance_of, ColumnCovariance, centred, mean_rows, correlated.
  cbn. repeat split; field.
Qed.

Lemma correlated_eig_sym_ok : eig_sym_ok correlated_eig_sym correlated.
Proof.
  destruct correlated_covariance as (C00 & C01 & C10 & C11).
  unfold eig_sym_ok, is_eig_sym, eigval_of, eigvec_of, correlated_eig_sym.
  cbn [fst snd]. cbv zeta.
  change (n_rows (covariance_of correlated)) with 2%nat.
  repeat split; try reflexivity.
  - intros i j Hi Hj. two_cases i Hi; two_cases j Hj; cbn; field.
  - intros a j Ha Hj. rewrite !rsum_S, rsum_0.
    two_cases a Ha; two_cases j Hj;
      rewrite ?C00, ?C01, ?C10, ?C11; cbn; field.
  - intros i j Hij Hj. two_cases j Hj; destruct i as [| [| i]];
      try lia; cbn; lra.
Qed.

Lemma correlated_full_rank : full_rank (covariance_of correlated).
Proof.
  destruct correlated_covariance as (C00 & C01 & C10 & C11).
  intros v Hv j Hj.
  change (n_cols (covariance_of correlated)) with 2%nat in *.
  change (n_rows (covariance_of correlated)) with 2%nat in *.
  pose proof (Hv 0%nat ltac:(lia)) as H0.
  pose proof (Hv 1%nat ltac:(lia)) as H1.
  rewrite !rsum_S, rsum_0 in H0, H1.
  rewrite C00, C01 in H0. rewrite C10, C11 in H1.
  two_cases j Hj; lra.
Qed.

Lemma correlated_inv_ok :
  is_inv (trans correlated_eigvec) (correlated_inv (trans correlated_eigvec)).
Proof.
  unfold is_inv, mat_eq, correlated_inv. cbn [trans n_rows n_cols times
    eye_sized correlated_eigvec of_rows List.length hd].
  repeat split; try reflexivity;
    intros r c Hr Hc; two_cases r Hr; two_cases c Hc; cbn; field.
Qed.

End Correlated.

Section CorrelatedRuns.
Local Open Scope R_scope.

Lemma sqrt_25 : R_sqrt.sqrt (25 + 0) = 5.
Proof.
  replace (25 + 0) with (5 * 5) by ring. apply sqrt_square. lra.
Qed.

Lemma sqrt_100 : R_sqrt.sqrt (100 + 0) = 10.
Proof.
  replace (100 + 0) with (10 * 10) by ring. apply sqrt_square. lra.
Qed.

Lemma denominators_positive_witness :
  let self := make (1 / 20000) in
  exists st output,
    Transform correlated_eig_sym self correlated = Some (st, output) /\
    let denominators := map1 R_sqrt.sqrt (eigenValues st) in
    n_elem (eigenValues st) = n_rows correlated /\
    (forall i, (i < n_rows correlated)%nat ->
       elem (eigenValues st) i 0
         = elem (eigval_of correlated_eig_sym correlated) i 0 + epsilon self /\
       0 <= elem (eigval_of correlated_eig_sym correlated) i 0 /\
       0 < elem denominators i 0) /\
    output = times (times (diagmat (map1 (Rdiv 1) denominators))
                          (trans (eigenVectors st)))
                   (centred correlated) /\
    forall i k, (i < n_rows correlated)%nat ->
      elem output i k
      = rsum (n_rows correlated)
             (fun a => elem (eigenVectors st) a i
                       * elem (centred correlated) a k)
        / elem denominators i 0.
Proof.
  cbv zeta. eexists _, _. split; [ reflexivity | ].
  eapply (@denominators_positive correlated_eig_sym correlated
            correlated_eig_sym_ok (make (1 / 20000))).
  - cbn. lra.
  - reflexivity.
Defined.

(** C10 fails on the code as stated, which computes in binary64.  For the
    collinear sample the covariance is [[1, 7], [7, 49]], with the
    eigenvalues 0 and 50; LAPACK's formulas give -2^-53 for the first.  With
    the regularization parameter 1e-17, which is above 0, the stored
    eigenvalue is below 0, its square root is NaN, and so is the first row of
    the output. *)
Lemma negative_eigenvalue_gives_nan :
  let eps := 1e-17%float in
  map (fun ij => elem (ColumnCovariance collinear) (fst ij) (snd ij))
      [(0, 0); (0, 1); (1, 0); (1, 1)]%nat
  = [1; 7; 7; 49]%float /\
  dlaev2_eigenvalues 1 7 49 = (50, -0x1p-53)%float /\
  PrimFloat.ltb 0 eps = true /\
  exists st output,
    Transform collinear_eig_sym (make eps) collinear = Some (st, output) /\
    PrimFloat.ltb (elem (eigenValues st) 0 0) 0 = true /\
    PrimFloat.is_nan (PrimFloat.sqrt (elem (eigenValues st) 0 0)) = true /\
    map (fun k => PrimFloat.is_nan (elem output 0 k)) [0; 1; 2]%nat
    = [true; true; true].
Proof.
  cbv zeta. split; [ vm_compute; reflexivity | ].
  split; [ vm_compute; reflexivity | ].
  split; [ vm_compute; reflexivity | ].
  eexists _, _. split; [ reflexivity | ].
  repeat split; vm_compute; reflexivity.
Qed.

Lemma whitened_covariance_is_identity_witness :
  exists st output,
    Transform correlated_eig_sym (make 0) correlated = Some (st, output) /\
    n_rows output = n_rows correlated /\ n_cols output = n_cols correlated /\
    mat_eq (ColumnCovariance output)
           (eye_sized (n_rows correlated) (n_rows correlated)) /\
    forall i, (i < n_rows correlated)%nat -> elem (mean_rows output) i 0 = 0.
Proof.
  apply (@whitened_covariance_is_identity correlated_eig_sym correlated
           correlated_eig_sym_ok (make 0)).
  - cbn. lia.
  - exact correlated_full_rank.
  - reflexivity.
Defined.

(** On the sample, [Transform] gives the whitened points (1, 1), (1, -1),
    (-1, 1), (-1, -1) and (0, 0). *)
Example whitened_sample :
  exists st output,
    Transform correlated_eig_sym (make 0) correlated = Some (st, output) /\
    map (fun k => (elem output 0 k, elem output 1 k)) [0; 1; 2; 3; 4]%nat
    = [(1, 1); (1, -1); (-1, 1); (-1, -1); (0, 0)].
Proof.
  eexists _, _. split; [ reflexivity | ].
  cbn. rewrite sqrt_25, sqrt_100.
  repeat match goal with
         | |- _ :: _ = _ :: _ => apply f_equal2
         | |- (_, _) = (_, _) => apply f_equal2
         end; try reflexivity; field.
Qed.

(** The covariance of the sample has one eigen-decomposition, up to the signs
    of the eigenvectors. *)
Lemma correlated_spectrum eig :
  eig_sym_ok eig correlated ->
  let lam := eigval_of eig correlated in
  let V := eigvec_of eig correlated in
  elem lam 0 0 = 25 /\ elem lam 1 0 = 100 /\
  elem V 0 0 * elem V 0 0 = 9 / 25 /\ elem V 1 0 = - (4 / 3) * elem V 0 0 /\
  elem V 0 1 * elem V 0 1 = 16 / 25 /\ elem V 1 1 = 3 / 4 * elem V 0 1.
Proof.
  intros (_ & _ & _ & _ & Hortho & Heig & Hasc) lam V.
  fold lam V in Hortho, Heig, Hasc.
  destruct correlated_covariance as (C00 & C01 & C10 & C11).
  change (n_rows (covariance_of correlated)) with 2%nat in *.
  pose proof (Hortho 0 0 ltac:(lia) ltac:(lia))%nat as O1.
  pose proof (Hortho 1 1 ltac:(lia) ltac:(lia))%nat as O2.
  pose proof (Hortho 0 1 ltac:(lia) ltac:(lia))%nat as O3.
  pose proof (Heig 0 0 ltac:(lia) ltac:(lia))%nat as E1.
  pose proof (Heig 1 0 ltac:(lia) ltac:(lia))%nat as E2.
  pose proof (Heig 0 1 ltac:(lia) ltac:(lia))%nat as E3.
  pose proof (Heig 1 1 ltac:(lia) ltac:(lia))%nat as E4.
  pose proof (Hasc 0 1 ltac:(lia) ltac:(lia))%nat as A.
  rewrite !rsum_S, rsum_0 in O1, O2, O3, E1, E2, E3, E4.
  rewrite C00, C01 in E1, E3. rewrite C10, C11 in E2, E4.
  cbn [Nat.eqb] in O1, O2, O3.
  set (a := elem V 0 0) in *. set (b := elem V 1 0) in *.
  set (c := elem V 0 1) in *. set (d := elem V 1 1) in *.
  set (l0 := elem lam 0 0) in *. set (l1 := elem lam 1 0) in *.
  clearbody a b c d l0 l1. clear Hortho Heig Hasc C00 C01 C10 C11.
  assert (P0 : (l0 - 25) * (l0 - 100) = 0).
  { assert (Pa : (l0 - 25) * (l0 - 100) * a = 0) by nra.
    assert (Pb : (l0 - 25) * (l0 - 100) * b = 0) by nra.
    transitivity ((l0 - 25) * (l0 - 100) * (0 + a * a + b * b));
      [ rewrite O1; ring | ].
    transitivity ((l0 - 25) * (l0 - 100) * a * a
                  + (l0 - 25) * (l0 - 100) * b * b); [ ring | ].
    rewrite Pa, Pb. ring. }
  assert (P1 : (l1 - 25) * (l1 - 100) = 0).
  { assert (Pa : (l1 - 25) * (l1 - 100) * c = 0) by nra.
    assert (Pb : (l1 - 25) * (l1 - 100) * d = 0) by nra.
    transitivity ((l1 - 25) * (l1 - 100) * (0 + c * c + d * d));
      [ rewrite O2; ring | ].
    transitivity ((l1 - 25) * (l1 - 100) * c * c
                  + (l1 - 25) * (l1 - 100) * d * d); [ ring | ].
    rewrite Pa, Pb. ring. }
  assert (L0 : l0 = 25 \/ l0 = 100).
  { apply Rmult_integral in P0. destruct P0; [ left | right ]; lra. }
  assert (L1 : l1 = 25 \/ l1 = 100).
  { apply Rmult_integral in P1. destruct P1; [ left | right ]; lra. }
  assert (L : l0 = 25 /\ l1 = 100).
  { destruct L0 as [-> | ->], L1 as [-> | ->]; try lra; exfalso.
    - assert (b = - (4 / 3) * a) by lra. assert (d = - (4 / 3) * c) by lra.
      subst b d. nra.
    - assert (b = 3 / 4 * a) by lra. assert (d = 3 / 4 * c) by lra.
      subst b d. nra. }
  destruct L as (-> & ->).
  assert (Hb : b = - (4 / 3) * a) by lra.
  assert (Hd : d = 3 / 4 * c) by lra.
  repeat split; try assumption; subst b d; nra.
Qed.


(** The inverse of the transposed matrix of eigenvectors is the matrix of
    eigenvectors (its first row is what is used below). *)
Lemma correlated_inverse eig inv :
  eig_sym_ok eig correlated ->
  is_inv (trans (eigvec_of eig correlated))
         (inv (trans (eigvec_of eig correlated))) ->
  let V := eigvec_of eig correlated in
  let W := inv (trans V) in
  n_rows W = 2%nat /\ n_cols W = 2%nat /\
  elem W 0 0 = elem V 0 0 /\ elem W 0 1 = elem V 0 1.
Proof.
  intros Hc Hinv V W.
  destruct (correlated_spectrum Hc) as (_ & _ & Ha & Hb & Hcc & Hd).
  destruct Hc as (_ & _ & Hvr & Hvc & _).
  change (n_rows (covariance_of correlated)) with 2%nat in *.
  fold V in Ha, Hb, Hcc, Hd, Hvr, Hvc, Hinv. fold W in Hinv.
  destruct Hinv as (Hwr & Hwc & (_ & _ & Hleft) & _).
  cbn [trans n_rows n_cols times eye_sized] in Hwr, Hwc, Hleft.
  rewrite Hvc in Hwr, Hwc. rewrite Hwr in Hleft.
  split; [ exact Hwr | ]. split; [ exact Hwc | ].
  pose proof (Hleft 0 0 ltac:(lia) ltac:(lia))%nat as I00.
  pose proof (Hleft 0 1 ltac:(lia) ltac:(lia))%nat as I01.
  unfold eye_sized in I00, I01.
  cbn [elem trans times mul zero one R_Scalar Nat.eqb] in I00, I01.
  rewrite Hwc in I00, I01.
  change (accu 2) with (rsum 2) in I00, I01.
  rewrite !rsum_S, rsum_0 in I00, I01.
  rewrite Hb, Hd in I01.
  set (a := elem V 0 0) in *. set (c := elem V 0 1) in *.
  set (x := elem W 0 0) in *. set (y := elem W 0 1) in *.
  clearbody a c x y.
  assert (Hu : a * x = 9 / 25) by nra.
  assert (Hv : c * y = 16 / 25) by nra.
  assert (a <> 0) by nra. assert (c <> 0) by nra.
  split.
  - apply (Rmult_eq_reg_l a); [ lra | assumption ].
  - apply (Rmult_eq_reg_l c); [ lra | assumption ].
Qed.

(** Whatever eigenvectors [eig_sym] chooses, and whatever [inv] returns for
    their transpose: the round trip gives 8 where the sample has 12. *)
Lemma any_decomposition_restores_8 eig inv st whitened restored :
  eig_sym_ok eig correlated ->
  is_inv (trans (eigvec_of eig correlated))
         (inv (trans (eigvec_of eig correlated))) ->
  Transform eig (make 0) correlated = Some (st, whitened) ->
  InverseTransform inv st whitened = Some restored ->
  elem correlated 0 0 = 12 /\ elem restored 0 0 = 8.
Proof.
  intros Hc Hinv Ht Hr. split; [ reflexivity | ].
  destruct (correlated_spectrum Hc) as (L0 & L1 & Ha & Hb & Hcc & Hd).
  destruct (correlated_inverse inv Hc Hinv) as (Hwr & Hwc & W00 & W01).
  pose proof (@whitened_elem eig correlated Hc _ _ _ 0%nat 0%nat Ht
                ltac:(cbn; lia)) as Y0.
  pose proof (@whitened_elem eig correlated Hc _ _ _ 1%nat 0%nat Ht
                ltac:(cbn; lia)) as Y1.
  destruct (whitened_shape Hc _ Ht) as (Hyr & Hyc & Hne).
  destruct (Transform_inv _ _ _ Ht) as (_ & Hst & _).
  subst st. unfold InverseTransform, each_col in Hr.
  cbn [itemMean eigenValues eigenVectors epsilon make] in *.
  destruct (_ && _); [ | discriminate ]. inversion Hr; subst restored.
  cbn [elem times diagmat map1 n_rows n_cols add mul zero R_Scalar].
  unfold n_elem in *. cbn [map1 n_rows n_cols] in *.
  rewrite Hwc, Hne.
  change (accu 2) with (rsum 2).
  change (accu (n_rows correlated)) with (rsum 2).
  rewrite !rsum_S, !rsum_0. cbn [Nat.eqb].
  rewrite Y0, Y1, W00, W01, L0, L1, sqrt_25, sqrt_100.
  change (n_rows correlated) with 2%nat. rewrite !rsum_S, !rsum_0.
  rewrite Hb, Hd.
  replace (elem (centred correlated) 0 0) with 11
    by (unfold centred, mean_rows, correlated; cbn; field).
  replace (elem (centred correlated) 1 0) with 2
    by (unfold centred, mean_rows, correlated; cbn; field).
  cbn [nth].
  set (a := elem (eigvec_of eig correlated) 0 0) in *.
  set (c := elem (eigvec_of eig correlated) 0 1) in *.
  set (w10 := elem (inv (trans (eigvec_of eig correlated))) 1 0).
  set (w11 := elem (inv (trans (eigvec_of eig correlated))) 1 1).
  clearbody a c w10 w11.
  replace 8 with (25 / 3 * (a * a) + 25 / 4 * (c * c) + 1)
    by (rewrite Ha, Hcc; field).
  field.
Qed.

(** C3 fails on the code.  On the sample dataset, with no regularization
    and a covariance of full rank, [InverseTransform] applied to the output
    of [Transform] gives 8 where the input has 12, whatever [eig_sym] and
    [inv] return within what Armadillo documents: it multiplies by the square
    roots of the eigenvalues on the left of the eigenvectors, where
    [Transform] divided on the left of their transpose. *)
Theorem inverse_transform_does_not_restore :
  full_rank (covariance_of correlated) /\
  (forall eig_sym inv st whitened restored,
     eig_sym_ok eig_sym correlated ->
     is_inv (trans (eigvec_of eig_sym correlated))
            (inv (trans (eigvec_of eig_sym correlated))) ->
     Transform eig_sym (make 0) correlated = Some (st, whitened) ->
     InverseTransform inv st whitened = Some restored ->
     elem correlated 0 0 = 12 /\ elem restored 0 0 = 8 /\
     ~ mat_eq restored correlated) /\
  exists st whitened restored,
    eig_sym_ok correlated_eig_sym correlated /\
    is_inv (trans (eigvec_of correlated_eig_sym correlated))
           (correlated_inv (trans (eigvec_of correlated_eig_sym correlated))) /\
    Transform correlated_eig_sym (make 0) correlated = Some (st, whitened) /\
    InverseTransform correlated_inv st whitened = Some restored.
Proof.
  split; [ exact correlated_full_rank | ]. split.
  - intros eig_sym inv st whitened restored Hc Hinv Ht Hr.
    destruct (any_decomposition_restores_8 inv Hc Hinv Ht Hr) as (H12 & H8).
    split; [ exact H12 | ]. split; [ exact H8 | ].
    intros (_ & _ & Hel). specialize (Hel 0%nat 0%nat).
    rewrite H12, H8 in Hel.
    assert (H : 8 = 12); [ | lra ].
    apply Hel.
    + destruct (Transform_inv _ _ _ Ht) as (_ & -> & _).
      unfold InverseTransform, each_col in Hr.
      destruct (_ && _); [ | discriminate ]. inversion Hr; subst restored.
      destruct Hc as (Hlr & Hlc & _).
      change (n_rows (covariance_of correlated)) with 2%nat in Hlr.
      cbn [n_rows times diagmat map1 eigenValues]. unfold n_elem.
      cbn [n_rows n_cols map1]. rewrite Hlr, Hlc. lia.
    + destruct (Transform_inv _ _ _ Ht) as (_ & _ & ->).
      unfold InverseTransform, each_col in Hr.
      destruct (_ && _); [ | discriminate ]. inversion Hr; subst restored.
      cbn. lia.
  - eexists _, _, _.
    split; [ exact correlated_eig_sym_ok | ].
    split; [ exact correlated_inv_ok | ].
    split; reflexivity.
Qed.

End CorrelatedRuns.


(** ** What a run does, the log apart *)

Lemma filter_logs logs : Forall is_log logs -> filter is_work logs = [].
Proof.
  induction 1 as [| e l He _ IH]; [ reflexivity | ].
  destruct e; try destruct He. simpl. exact IH.
Qed.

Lemma unknown_optimizer_outcome cast LearnDistance p now :
  known_optimizer p = false ->
  snd (mlpackMain cast LearnDistance p now start) = Thrown RuntimeError.
Proof.
  intros Hk. unfold mlpackMain.
  rewrite bind_run, seed_generator_run. cbn [fst snd].
  rewrite bind_run, RequireAtLeastOnePassed_done.
  rewrite bind_run, RequireParamInSet_run, Hk. reflexivity.
Qed.

Lemma mlpackMain_summary cast LearnDistance p now :
  let r := mlpackMain cast LearnDistance p now start in
  (filter is_work (events (fst r)), snd r) = summary cast LearnDistance p now.
Proof.
  intros r. unfold summary.
  destruct (mlpackMain_run cast LearnDistance p now) as (logs & Fl & Hrun).
  cbv zeta in Hrun. fold r in Hrun.
  set (s := to_size_t _) in *.
  destruct Hrun as [(Ev & e & Ho & Hwhy)
                   | (data & raw & dist & Hk & Hl & Hd & Hrun)].
  - rewrite Ev. cbn [filter is_work]. rewrite (filter_logs Fl), Ho.
    destruct Hwhy as [Hk | [Hl | (data & raw & Hl & Hd)]].
    + rewrite Hk. cbn [negb]. f_equal.
      rewrite <- Ho. apply unknown_optimizer_outcome. exact Hk.
    + destruct (known_optimizer p) eqn:Hk; cbn [negb].
      * rewrite Hl. reflexivity.
      * f_equal. rewrite <- Ho. apply unknown_optimizer_outcome. exact Hk.
    + destruct (known_optimizer p) eqn:Hk; cbn [negb].
      * rewrite Hl, Hd. reflexivity.
      * f_equal. rewrite <- Ho. apply unknown_optimizer_outcome. exact Hk.
  - rewrite Hk, Hl, Hd. cbn [negb].
    destruct (LearnDistance _ _ _ _ _) as [learned |];
      destruct Hrun as (Ho & Ev); rewrite Ev, Ho; cbn [filter is_work];
      rewrite filter_app, (filter_logs Fl); cbn [app].
    + destruct (CLI.HasParam p "output"); reflexivity.
    + reflexivity.
Qed.

Lemma load_labels_separate_done cast p data given :
  CLI.labels p = Some given ->
  List.length given = n_cols data ->
  snd (load_labels cast p data start) = Done (data, given).
Proof.
  intros Hl Hn. unfold load_labels. cbn. rewrite Hl. cbn.
  rewrite Hn, Nat.eqb_refl. reflexivity.
Qed.

Lemma initial_distance_done normalize data :
  normalize = false \/ 0 < n_cols data \/ n_rows data = 0 ->
  exists dist, snd (initial_distance normalize data start) = Done dist.
Proof.
  intros Hc. unfold initial_distance. cbv zeta.
  destruct normalize; [ | eexists; reflexivity ].
  destruct (Nat.eqb_spec (n_cols data) 0) as [Ec | Ec];
    destruct (Nat.eqb_spec (n_rows data) 0) as [Er | Er];
    cbn [andb negb]; try (eexists; reflexivity).
  destruct Hc as [Hc | [Hc | Hc]]; [ discriminate | lia | lia ].
Qed.

(** X1: a run with a known optimizer and separate labels, one per point,
    reaches the optimization (when [normalize] is set, on data with a point
    or without features).  Apart from the log it seeds the generator,
    constructs the [NCA] object on the whole input and the renumbered
    labels, and calls [LearnDistance] once with the settings of the
    parameters and the starting point.  When [LearnDistance] returns, the
    run ends normally and has saved what was returned if [output] was
    passed, and nothing if not; when it does not return, the run does not
    end and saves nothing. *)
Theorem run_with_separate_labels cast LearnDistance p now given :
  known_optimizer p = true ->
  CLI.labels p = Some given ->
  List.length given = n_cols (CLI.input p) ->
  CLI.normalize p = false \/ 0 < n_cols (CLI.input p)
    \/ n_rows (CLI.input p) = 0 ->
  let r := mlpackMain cast LearnDistance p now start in
  let s := to_size_t (if (CLI.GetParam_int p "seed" =? 0)%Z then now
                      else CLI.GetParam_int p "seed") in
  let labels := fst (NormalizeLabels given) in
  exists dist,
    snd (initial_distance (CLI.normalize p) (CLI.input p) start) = Done dist /\
    let work := [Seeded s; Constructed (uses_sgd p) (CLI.input p) labels;
                 LearnDistance_called (nca_settings p) dist] in
    match LearnDistance (Some s) (nca_settings p) (CLI.input p) labels dist
    with
    | Some learned =>
        snd r = Done tt /\
        filter is_work (events (fst r))
        = work ++ (if CLI.output p then [Saved learned] else [])
    | None =>
        snd r = Hangs /\ filter is_work (events (fst r)) = work
    end.
Proof.
  intros Hk Hl Hn Hc r s labels.
  pose proof (mlpackMain_summary cast LearnDistance p now) as Hs.
  cbv zeta in Hs. fold r in Hs. unfold summary in Hs. fold s in Hs.
  rewrite Hk, (load_labels_separate_done _ _ _ Hl Hn) in Hs.
  cbn [negb] in Hs.
  destruct (@initial_distance_done (CLI.HasParam p "normalize") (CLI.input p))
    as (dist & Hd); [ exact Hc | ].
  rewrite Hd in Hs. exists dist. split; [ exact Hd | ]. cbv zeta.
  fold labels in Hs.
  destruct (LearnDistance (Some s) (nca_settings p) (CLI.input p) labels dist)
    as [learned |]; injection Hs as He Ho; split; assumption.
Qed.

Ltac no_saved Hin He Ho :=
  split;
  [ split;
    [ intros (d & Hd); apply (Hin (Saved d) eq_refl) in Hd; rewrite He in Hd;
      destruct Hd as [Hd | []]; discriminate
    | intros (_ & Hdone); rewrite Ho in Hdone; discriminate ]
  | intros d Hd; apply (Hin (Saved d) eq_refl) in Hd; rewrite He in Hd;
    destruct Hd as [Hd | []]; discriminate ].

(** X4: a run saves a matrix when, and only when, [output] was passed and
    the run ends normally; the matrix it saves is the one [LearnDistance]
    left, for the dataset and labels the [NCA] object was constructed with
    and the starting point of the call, under the seeded generator. *)
Theorem saved_is_learned cast LearnDistance p now :
  let r := mlpackMain cast LearnDistance p now start in
  let s := to_size_t (if (CLI.GetParam_int p "seed" =? 0)%Z then now
                      else CLI.GetParam_int p "seed") in
  ((exists saved, In (Saved saved) (events (fst r))) <->
   (CLI.output p = true /\ snd r = Done tt)) /\
  forall saved, In (Saved saved) (events (fst r)) ->
    exists sgd data labels dist,
      In (Constructed sgd data labels) (events (fst r)) /\
      In (LearnDistance_called (nca_settings p) dist) (events (fst r)) /\
      LearnDistance (Some s) (nca_settings p) data labels dist = Some saved.
Proof.
  intros r s.
  pose proof (mlpackMain_summary cast LearnDistance p now) as Hs.
  cbv zeta in Hs. fold r in Hs. unfold summary in Hs. fold s in Hs.
  assert (Hin : forall e, is_work e = true ->
            (In e (events (fst r)) <-> In e (filter is_work (events (fst r))))).
  { intros e He. rewrite filter_In. tauto. }
  change (CLI.HasParam p "output") with (CLI.output p) in Hs.
  destruct (negb (known_optimizer p)).
  { injection Hs as He Ho. no_saved Hin He Ho. }
  destruct (snd (load_labels cast p (CLI.input p) start))
    as [[data raw] | e |].
  2,3: injection Hs as He Ho; no_saved Hin He Ho.
  destruct (snd (initial_distance (CLI.HasParam p "normalize") data start))
    as [dist | e |].
  2,3: injection Hs as He Ho; no_saved Hin He Ho.
  cbv zeta in Hs.
  destruct (LearnDistance (Some s) (nca_settings p) data
              (fst (NormalizeLabels raw)) dist) as [learned |] eqn:Hlearn.
  2:{ injection Hs as He Ho. split.
      - split.
        + intros (d & Hd). apply (Hin (Saved d) eq_refl) in Hd.
          rewrite He in Hd. cbn in Hd.
          destruct Hd as [Hd | [Hd | [Hd | []]]]; discriminate.
        + intros (_ & Hdone). rewrite Ho in Hdone. discriminate.
      - intros d Hd. apply (Hin (Saved d) eq_refl) in Hd.
        rewrite He in Hd. cbn in Hd.
        destruct Hd as [Hd | [Hd | [Hd | []]]]; discriminate. }
  injection Hs as He Ho. split.
  - split.
    + intros (d & Hd). apply (Hin (Saved d) eq_refl) in Hd. rewrite He in Hd.
      destruct (CLI.output p); [ auto | ].
      cbn in Hd. destruct Hd as [Hd | [Hd | [Hd | []]]]; discriminate.
    + intros (Hout & _). rewrite Hout in He. eexists.
      apply Hin; [ | rewrite He; cbn; right; right; right; left; reflexivity ].
      reflexivity.
  - intros d Hd. apply (Hin (Saved d) eq_refl) in Hd. rewrite He in Hd.
    exists (uses_sgd p), data, (fst (NormalizeLabels raw)), dist.
    split; [ apply Hin; [ reflexivity | rewrite He; cbn; auto ] | ].
    split; [ apply Hin; [ reflexivity | rewrite He; cbn; auto ] | ].
    destruct (CLI.output p); cbn in Hd.
    + destruct Hd as [Hd | [Hd | [Hd | [Hd | []]]]]; try discriminate.
      inversion Hd. subst d. exact Hlearn.
    + destruct Hd as [Hd | [Hd | [Hd | []]]]; discriminate.
Qed.

(** The blocks that read the data look at [labels], and the summary at the
    options the chosen optimizer reads. *)
Lemma load_labels_same cast p q data :
  CLI.labels q = CLI.labels p -> load_labels cast q data = load_labels cast p data.
Proof.
  intros Hl. unfold load_labels. cbn. rewrite Hl. reflexivity.
Qed.

(** X6: under L-BFGS the options [step_size], [linear_scan] and
    [batch_size] change nothing but the log: with any values for them the
    run ends the same way and seeds, constructs, optimizes and saves the
    same. *)
Theorem lbfgs_ignores_sgd_options cast LearnDistance p now
    step_size linear_scan batch_size :
  CLI.GetParam_string p "optimizer" = "lbfgs" ->
  let q := set_sgd_options step_size linear_scan batch_size p in
  let r := mlpackMain cast LearnDistance p now start in
  let r' := mlpackMain cast LearnDistance q now start in
  snd r' = snd r /\
  filter is_work (events (fst r')) = filter is_work (events (fst r)).
Proof.
  intros Ho q r r'.
  pose proof (mlpackMain_summary cast LearnDistance p now) as Hp.
  pose proof (mlpackMain_summary cast LearnDistance q now) as Hq.
  cbv zeta in Hp, Hq. fold r in Hp. fold r' in Hq.
  assert (E : summary cast LearnDistance q now = summary cast LearnDistance p now).
  { unfold summary.
    change (CLI.GetParam_int q "seed") with (CLI.GetParam_int p "seed").
    change (known_optimizer q) with (known_optimizer p).
    change (CLI.input q) with (CLI.input p).
    change (CLI.HasParam q "normalize") with (CLI.HasParam p "normalize").
    change (CLI.HasParam q "output") with (CLI.HasParam p "output").
    change (uses_sgd q) with (uses_sgd p).
    rewrite (@load_labels_same cast p q (CLI.input p) eq_refl).
    assert (En : nca_settings q = nca_settings p).
    { unfold nca_settings.
      change (CLI.GetParam_string q "optimizer")
        with (CLI.GetParam_string p "optimizer").
      rewrite Ho. reflexivity. }
    rewrite En. reflexivity. }
  rewrite E, <- Hp in Hq. injection Hq as He Hout. auto.
Qed.

(** X7: under SGD the options [num_basis], [armijo_constant], [wolfe],
    [max_line_search_trials], [min_step] and [max_step] change nothing but
    the log: with any values for them the run ends the same way and seeds,
    constructs, optimizes and saves the same. *)
Theorem sgd_ignores_lbfgs_options cast LearnDistance p now
    num_basis armijo_constant wolfe max_line_search_trials min_step max_step :
  CLI.GetParam_string p "optimizer" = "sgd" ->
  let q := set_lbfgs_options num_basis armijo_constant wolfe
             max_line_search_trials min_step max_step p in
  let r := mlpackMain cast LearnDistance p now start in
  let r' := mlpackMain cast LearnDistance q now start in
  snd r' = snd r /\
  filter is_work (events (fst r')) = filter is_work (events (fst r)).
Proof.
  intros Ho q r r'.
  pose proof (mlpackMain_summary cast LearnDistance p now) as Hp.
  pose proof (mlpackMain_summary cast LearnDistance q now) as Hq.
  cbv zeta in Hp, Hq. fold r in Hp. fold r' in Hq.
  assert (E : summary cast LearnDistance q now = summary cast LearnDistance p now).
  { unfold summary.
    change (CLI.GetParam_int q "seed") with (CLI.GetParam_int p "seed").
    change (known_optimizer q) with (known_optimizer p).
    change (CLI.input q) with (CLI.input p).
    change (CLI.HasParam q "normalize") with (CLI.HasParam p "normalize").
    change (CLI.HasParam q "output") with (CLI.HasParam p "output").
    change (uses_sgd q) with (uses_sgd p).
    rewrite (@load_labels_same cast p q (CLI.input p) eq_refl).
    assert (En : nca_settings q = nca_settings p).
    { unfold nca_settings.
      change (CLI.GetParam_string q "optimizer")
        with (CLI.GetParam_string p "optimizer").
      rewrite Ho. reflexivity. }
    rewrite En. reflexivity. }
  rewrite E, <- Hp in Hq. injection Hq as He Hout. auto.
Qed.

(** X8: with [optimizer] and the options of SGD left out, a run that
    reaches [LearnDistance] runs SGD with the declared defaults: step size
    0.01, at most 500000 iterations, tolerance 1e-7, batches of 50 points,
    and shuffling. *)
Theorem default_run_uses_sgd cast LearnDistance p now o distance :
  CLI.optimizer p = None ->
  CLI.step_size p = None -> CLI.max_iterations p = None ->
  CLI.tolerance p = None -> CLI.linear_scan p = false ->
  CLI.batch_size p = None ->
  In (LearnDistance_called o distance)
     (events (fst (mlpackMain cast LearnDistance p now start))) ->
  o = WithSGD (SGD.mk 0.01%float 500000%Z 1e-7%float true 50%Z) /\
  exists data labels,
    In (Constructed true data labels)
       (events (fst (mlpackMain cast LearnDistance p now start))).
Proof.
  intros Ho Hs Hm Ht Hl Hb Hin.
  destruct (LearnDistance_reached _ _ _ _ _ _ Hin)
    as (data & raw & _ & _ & -> & Hc).
  unfold nca_settings, uses_sgd in *. cbn in *.
  rewrite Ho in *. rewrite Hs, Hm, Ht, Hl, Hb. cbn in *.
  split; [ reflexivity | eauto ].
Qed.

(** X2: a run with a known optimizer and no separate labels, on an input
    with at least one row, reaches the optimization (when [normalize] is
    set, on data with a point or with the label row only).  The [NCA]
    object is constructed on the input without its last row, with the
    entries of that row converted to [size_t] and renumbered as labels, and
    [LearnDistance] is called once.  When it returns, the run ends normally
    and has saved what was returned if [output] was passed; when it does
    not return, the run does not end and saves nothing. *)
Theorem run_with_labels_in_last_row cast LearnDistance p now :
  known_optimizer p = true ->
  CLI.labels p = None ->
  0 < n_rows (CLI.input p) ->
  CLI.normalize p = false \/ 0 < n_cols (CLI.input p)
    \/ n_rows (CLI.input p) = 1 ->
  let r := mlpackMain cast LearnDistance p now start in
  let s := to_size_t (if (CLI.GetParam_int p "seed" =? 0)%Z then now
                      else CLI.GetParam_int p "seed") in
  let data := shed_row (CLI.input p) (n_rows (CLI.input p) - 1) in
  let labels :=
    fst (NormalizeLabels
           (labels_of_row cast (CLI.input p) (n_rows (CLI.input p) - 1)
                          (n_cols (CLI.input p)))) in
  exists dist,
    snd (initial_distance (CLI.normalize p) data start) = Done dist /\
    let work := [Seeded s; Constructed (uses_sgd p) data labels;
                 LearnDistance_called (nca_settings p) dist] in
    match LearnDistance (Some s) (nca_settings p) data labels dist with
    | Some learned =>
        snd r = Done tt /\
        filter is_work (events (fst r))
        = work ++ (if CLI.output p then [Saved learned] else [])
    | None =>
        snd r = Hangs /\ filter is_work (events (fst r)) = work
    end.
Proof.
  intros Hk Hl Hrow Hc r s data labels.
  pose proof (mlpackMain_summary cast LearnDistance p now) as Hs.
  cbv zeta in Hs. fold r in Hs. unfold summary in Hs. fold s in Hs.
  rewrite Hk, (load_labels_last_row_defined cast p (CLI.input p) Hl Hrow)
    in Hs.
  cbn [negb] in Hs. fold data in Hs.
  destruct (@initial_distance_done (CLI.HasParam p "normalize") data)
    as (dist & Hd).
  { cbn [data shed_row n_rows n_cols].
    destruct Hc as [Hc | [Hc | Hc]]; [ auto | auto | right; right; lia ]. }
  rewrite Hd in Hs. exists dist. split; [ exact Hd | ]. cbv zeta.
  fold labels in Hs.
  destruct (LearnDistance (Some s) (nca_settings p) data labels dist)
    as [learned |]; injection Hs as He Ho; split; assumption.
Qed.


(** ** The notices of a run *)

Lemma In_bind_first {A B : Type} (P : Event -> Prop) (m : M A) (k : A -> M B)
    w e :
  (forall a, steady P (k a)) ->
  In e (events (fst (m w))) -> In e (events (fst (bind m k w))).
Proof.
  intros Hk Hin. rewrite bind_run. destruct (snd (m w)) as [a | x |].
  - exact (@In_after _ P (k a) (fst (m w)) e (Hk a) Hin).
  - exact Hin.
  - exact Hin.
Qed.

Lemma warn_unused_reports p w name :
  known_optimizer p = true ->
  CLI.HasParam p name = true ->
  In name (reported_options p) ->
  exists reason,
    In (Logged Warn (Ignored name reason))
       (events (fst (warn_unused p (CLI.GetParam_string p "optimizer") w))).
Proof.
  unfold known_optimizer, reported_options, uses_sgd, warn_unused.
  cbn [existsb]. intros Hk Hp Hin.
  destruct (CLI.GetParam_string p "optimizer" =? "sgd")%string.
  - exists "L-BFGS optimizer is not being used".
    cbn in Hin.
    repeat (destruct Hin as [<- | Hin];
      [ repeat first
          [ apply ReportIgnoredParam_passed; exact Hp
          | apply (@In_bind_first _ _ is_log);
            [ intros _;
              repeat first [ apply steady_ReportIgnoredParam
                           | apply steady_bind; [ | intros ? ] ]
            | apply ReportIgnoredParam_passed; exact Hp ]
          | rewrite bind_run, ReportIgnoredParam_done ]
      | ]).
    destruct Hin.
  - destruct (CLI.GetParam_string p "optimizer" =? "lbfgs")%string;
      [ | discriminate ].
    exists "SGD optimizer is not being used".
    cbn in Hin.
    repeat (destruct Hin as [<- | Hin];
      [ repeat first
          [ apply ReportIgnoredParam_passed; exact Hp
          | apply (@In_bind_first _ _ is_log);
            [ intros _;
              repeat first [ apply steady_ReportIgnoredParam
                           | apply steady_bind; [ | intros ? ] ]
            | apply ReportIgnoredParam_passed; exact Hp ]
          | rewrite bind_run, ReportIgnoredParam_done ]
      | ]).
    destruct Hin.
Qed.

(** X5: with a known optimizer, a run reports an option as ignored when,
    and only when, the option was passed and is among those the branch of
    the chosen optimizer lists: under L-BFGS [step_size], [linear_scan] and
    [batch_size]; under SGD the six options of L-BFGS and [batch_size]. *)
Theorem ignored_options_are_reported cast LearnDistance p now name :
  known_optimizer p = true ->
  let r := mlpackMain cast LearnDistance p now start in
  (exists l reason, In (Logged l (Ignored name reason)) (events (fst r))) <->
  (CLI.HasParam p name = true /\ In name (reported_options p)).
Proof.
  intros Hk r. split.
  - intros (l & reason & Hin).
    pose proof (notices cast LearnDistance p now) as Hn.
    rewrite Forall_forall in Hn. specialize (Hn _ Hin).
    cbn [notice_ok] in Hn. unfold reported_options.
    destruct (uses_sgd p); exact Hn.
  - intros (Hp & Hname). subst r. unfold mlpackMain.
    rewrite bind_run, seed_generator_run. cbn [fst snd].
    rewrite bind_run, RequireAtLeastOnePassed_done.
    rewrite bind_run, RequireParamInSet_run, Hk. cbn [fst snd].
    rewrite bind_run, warn_unused_done.
    match goal with
    | |- context [warn_unused p _ ?w0] =>
        destruct (@warn_unused_reports p w0 name Hk Hp Hname)
          as (reason & Hin)
    end.
    exists Warn, reason.
    match goal with
    | |- In _ (events (fst (?k ?w))) =>
        apply (@In_after _ not_seeding k w)
    end.
    + unfold optimize. cbv zeta. steady_main log_not_seeding.
    + exact Hin.
Qed.

(** X3: a run that ends by an exception has done nothing but seed the
    generator and write to the log: no [NCA] object was constructed,
    [LearnDistance] was not called and nothing was saved. *)
Theorem failed_run_does_no_work cast LearnDistance p now e :
  let r := mlpackMain cast LearnDistance p now start in
  let s := to_size_t (if (CLI.GetParam_int p "seed" =? 0)%Z then now
                      else CLI.GetParam_int p "seed") in
  snd r = Thrown e ->
  filter is_work (events (fst r)) = [Seeded s].
Proof.
  intros r s Hr.
  pose proof (mlpackMain_summary cast LearnDistance p now) as Hs.
  cbv zeta in Hs. fold r in Hs. unfold summary in Hs. fold s in Hs.
  rewrite Hr in Hs.
  destruct (negb (known_optimizer p)); [ congruence | ].
  destruct (snd (load_labels cast p (CLI.input p) start))
    as [[data raw] | x |]; [ | congruence | congruence ].
  destruct (snd (initial_distance _ data start)) as [dist | x |];
    [ | congruence | congruence ].
  cbv zeta in Hs. destruct (LearnDistance _ _ _ _ _); discriminate.
Qed.


(** ** Features that do not vary *)

Lemma ltb_irrefl (x : float) : PrimFloat.ltb x x = false.
Proof.
  rewrite ltb_spec. unfold SFltb, SFcompare.
  destruct (Prim2SF x) as [s | s | | s m e]; try reflexivity.
  - destruct s; reflexivity.
  - rewrite Z.compare_refl, Pos.compare_cont_refl. destruct s; reflexivity.
Qed.

Lemma sub_self_is_zero (x : float) :
  is_number x = true -> PrimFloat.eqb (PrimFloat.sub x x) 0%float = true.
Proof.
  unfold is_number. intros Hx.
  rewrite eqb_spec, sub_spec. unfold SF64sub, SFsub.
  destruct (Prim2SF x) as [s | s | | s m e]; try discriminate.
  - destruct s; reflexivity.
  - rewrite Z.sub_diag. reflexivity.
Qed.

Lemma row_max_constant data i k x :
  (forall c, c <= k -> elem data i c = x) -> row_max data i k = x.
Proof.
  induction k as [| k IH]; intros Hc; simpl.
  - apply Hc. lia.
  - rewrite IH by (intros c Hle; apply Hc; lia).
    rewrite (Hc (S k)) by lia. rewrite ltb_irrefl. reflexivity.
Qed.

Lemma row_min_constant data i k x :
  (forall c, c <= k -> elem data i c = x) -> row_min data i k = x.
Proof.
  induction k as [| k IH]; intros Hc; simpl.
  - apply Hc. lia.
  - rewrite IH by (intros c Hle; apply Hc; lia).
    rewrite (Hc (S k)) by lia. rewrite ltb_irrefl. reflexivity.
Qed.

(** X9: with [normalize] set, a feature that has the same value at every
    point, a double that is neither infinite nor NaN, gets the entry 1 in
    the starting point: its maximum and minimum are that value, their
    difference is 0 in binary64 arithmetic, and the range is replaced
    by 1. *)
Theorem constant_feature_gets_one cast LearnDistance p now o distance :
  CLI.normalize p = true ->
  In (LearnDistance_called o distance)
     (events (fst (mlpackMain cast LearnDistance p now start))) ->
  exists sgd data labels,
    In (Constructed sgd data labels)
       (events (fst (mlpackMain cast LearnDistance p now start))) /\
    forall i x,
      i < n_rows data -> is_number x = true ->
      (forall c, c < n_cols data -> elem data i c = x) ->
      elem distance i i = 1%float.
Proof.
  intros Hn Hin.
  destruct (LearnDistance_reached _ _ _ _ _ _ Hin)
    as (data & raw & _ & Hd & _ & Hc).
  change (CLI.HasParam p "normalize") with (CLI.normalize p) in Hd.
  rewrite Hn in Hd. apply initial_distance_normalized in Hd.
  destruct Hd as (Hshape & ->).
  exists (uses_sgd p), data, (fst (NormalizeLabels raw)).
  split; [ exact Hc | ]. intros i x Hi Hx Hconst.
  assert (Hpoint : 0 < n_cols data) by lia.
  cbn [diagmat map1 map2 max_rows min_rows elem].
  rewrite Nat.eqb_refl.
  rewrite (@row_max_constant data i (n_cols data - 1) x)
    by (intros c Hle; apply Hconst; lia).
  rewrite (@row_min_constant data i (n_cols data - 1) x)
    by (intros c Hle; apply Hconst; lia).
  unfold fix_range. rewrite (sub_self_is_zero x Hx). reflexivity.
Qed.

(** ** Sample runs of the driver *)

Lemma run_with_separate_labels_witness :
  let p := params_of two_features (Some [4; 9; 9]%Z) (Some "lbfgs") false
                     false None (Some 7%Z) in
  let r := mlpackMain zero_cast returns_start p 0%Z start in
  exists dist,
    snd (initial_distance false two_features start) = Done dist /\
    snd r = Done tt /\
    filter is_work (events (fst r))
    = [Seeded 7%Z; Constructed false two_features [0; 1; 1]%Z;
       LearnDistance_called (nca_settings p) dist]
      ++ [Saved dist].
Proof.
  cbv zeta.
  apply (@run_with_separate_labels zero_cast returns_start
           (params_of two_features (Some [4; 9; 9]%Z) (Some "lbfgs") false
                      false None (Some 7%Z)) 0%Z [4; 9; 9]%Z).
  - reflexivity.
  - reflexivity.
  - reflexivity.
  - left. reflexivity.
Defined.

(** The same run with an optimizer that does not return: the run does not
    end, and nothing is saved although [output] was passed. *)
Example run_that_does_not_return :
  let p := params_of two_features (Some [4; 9; 9]%Z) (Some "lbfgs") false
                     false None (Some 7%Z) in
  let r := mlpackMain zero_cast never_returns p 0%Z start in
  snd r = Hangs /\
  filter is_work (events (fst r))
  = [Seeded 7%Z; Constructed false two_features [0; 1; 1]%Z;
     LearnDistance_called (nca_settings p) (eye empty)].
Proof. cbv zeta. split; reflexivity. Qed.

Lemma run_with_labels_in_last_row_witness :
  let p := normalized_sample in
  let r := mlpackMain zero_cast returns_start p 0%Z start in
  let data := shed_row two_features 2 in
  exists dist,
    snd (initial_distance true data start) = Done dist /\
    snd r = Done tt /\
    filter is_work (events (fst r))
    = [Seeded 0%Z; Constructed true data [0; 1; 1]%Z;
       LearnDistance_called (nca_settings p) dist]
      ++ [Saved dist].
Proof.
  cbv zeta.
  apply (@run_with_labels_in_last_row zero_cast returns_start
           normalized_sample 0%Z).
  - reflexivity.
  - reflexivity.
  - cbn. lia.
  - right. left. cbn. lia.
Defined.

Lemma failed_run_does_no_work_witness :
  let p := params_of ten_points (Some [0; 0; 0; 0; 0; 1; 1; 1; 1]%Z) None
                     false false None (Some 7%Z) in
  filter is_work (events (fst (mlpackMain zero_cast returns_start p 0%Z start)))
  = [Seeded 7%Z].
Proof.
  cbv zeta.
  apply (@failed_run_does_no_work zero_cast returns_start
           (params_of ten_points (Some [0; 0; 0; 0; 0; 1; 1; 1; 1]%Z) None
                      false false None (Some 7%Z)) 0%Z RuntimeError).
  reflexivity.
Defined.

Lemma ignored_options_are_reported_witness :
  let p := params_of two_features None (Some "lbfgs") false true None None in
  let r := mlpackMain zero_cast returns_start p 0%Z start in
  (exists l reason,
     In (Logged l (Ignored "linear_scan" reason)) (events (fst r))) <->
  (CLI.HasParam p "linear_scan" = true /\
   In "linear_scan" (reported_options p)).
Proof.
  cbv zeta.
  apply (@ignored_options_are_reported zero_cast returns_start
           (params_of two_features None (Some "lbfgs") false true None None)
           0%Z "linear_scan").
  reflexivity.
Defined.

Lemma lbfgs_ignores_sgd_options_witness :
  let p := params_of two_features None (Some "lbfgs") false false None None in
  let q := set_sgd_options (Some 0.5%float) true (Some 10%Z) p in
  let r := mlpackMain zero_cast returns_start p 0%Z start in
  let r' := mlpackMain zero_cast returns_start q 0%Z start in
  snd r' = snd r /\
  filter is_work (events (fst r')) = filter is_work (events (fst r)).
Proof.
  cbv zeta.
  apply (@lbfgs_ignores_sgd_options zero_cast returns_start
           (params_of two_features None (Some "lbfgs") false false None None)
           0%Z (Some 0.5%float) true (Some 10%Z)).
  reflexivity.
Defined.

Lemma sgd_ignores_lbfgs_options_witness :
  let p := params_of two_features None (Some "sgd") false false None None in
  let q := set_lbfgs_options (Some 3%Z) (Some 0.5%float) None (Some 20%Z)
             None (Some 2%float) p in
  let r := mlpackMain zero_cast returns_start p 0%Z start in
  let r' := mlpackMain zero_cast returns_start q 0%Z start in
  snd r' = snd r /\
  filter is_work (events (fst r')) = filter is_work (events (fst r)).
Proof.
  cbv zeta.
  apply (@sgd_ignores_lbfgs_options zero_cast returns_start
           (params_of two_features None (Some "sgd") false false None None)
           0%Z (Some 3%Z) (Some 0.5%float) None (Some 20%Z) None
           (Some 2%float)).
  reflexivity.
Defined.

Lemma default_run_uses_sgd_witness :
  let p := params_of two_features None None false false None None in
  nca_settings p
    = WithSGD (SGD.mk 0.01%float 500000%Z 1e-7%float true 50%Z) /\
  exists data labels,
    In (Constructed true data labels)
       (events (fst (mlpackMain zero_cast returns_start p 0%Z start))).
Proof.
  cbv zeta.
  apply (@default_run_uses_sgd zero_cast returns_start
           (params_of two_features None None false false None None) 0%Z
           (nca_settings
              (params_of two_features None None false false None None))
           (eye empty)); try reflexivity.
  pick_event.
Defined.

Lemma constant_feature_gets_one_witness :
  exists sgd data labels,
    In (Constructed sgd data labels)
       (events (fst (mlpackMain zero_cast returns_start normalized_sample 0%Z start))) /\
    forall i x,
      i < n_rows data -> is_number x = true ->
      (forall c, c < n_cols data -> elem data i c = x) ->
      elem normalized_sample_start i i = 1%float.
Proof.
  apply (@constant_feature_gets_one zero_cast returns_start normalized_sample 0%Z
           (nca_settings normalized_sample) normalized_sample_start).
  - reflexivity.
  - pick_event.
Defined.


(** ** More on [Transform] and [InverseTransform] *)

Section Regularized.
Local Open Scope R_scope.

Variable eig_sym : Mat R -> Mat R * Mat R.
Variable input : Mat R.
Hypothesis contract : eig_sym_ok eig_sym input.
Variable self : @t R.

(** The covariance of the whitened matrix, whatever the regularization. *)
Lemma whitened_covariance_entry st output i j :
  Transform eig_sym self input = Some (st, output) ->
  (i < n_rows input)%nat -> (j < n_rows input)%nat ->
  elem (ColumnCovariance output) i j
  = 1 / R_sqrt.sqrt (elem (eigval_of eig_sym input) i 0 + epsilon self)
    * (1 / R_sqrt.sqrt (elem (eigval_of eig_sym input) j 0 + epsilon self))
    * (if (i =? j)%nat then elem (eigval_of eig_sym input) j 0 else 0).
Proof.
  intros Ht Hi Hj.
  destruct (whitened_shape contract _ Ht) as (Hr & Hc & _).
  destruct (Transform_inv _ _ _ Ht) as (Hn & _ & _).
  unfold ColumnCovariance.
  cbn [elem div mul sub of_nat one zero R_Scalar].
  rewrite !mean_rows_zero
    by (apply (whitened_row_sum contract _ Ht); assumption).
  rewrite Hc.
  set (nv := INR (if (1 <? n_cols input)%nat then n_cols input - 1 else 1)).
  assert (Hnv : 0 < nv) by apply normVal_pos.
  set (lam := eigval_of eig_sym input).
  set (V := eigvec_of eig_sym input).
  set (s := fun r => 1 / R_sqrt.sqrt (elem lam r 0 + epsilon self)).
  change (accu (n_cols input)) with (rsum (n_cols input)).
  rewrite (rsum_ext _
    (fun k => (s i * s j)
              * (rsum (n_rows input) (fun p => elem V p i
                                               * elem (centred input) p k)
                 * rsum (n_rows input) (fun q => elem V q j
                                               * elem (centred input) q k)))).
  2:{ intros k _.
      rewrite (whitened_elem contract _ k Ht Hi),
              (whitened_elem contract _ k Ht Hj).
      fold lam V. unfold s. ring. }
  rewrite rsum_scal_l, rsum_gram.
  destruct contract as (_ & _ & _ & _ & Hortho & Heig & _).
  cbn [covariance_of ColumnCovariance n_rows centred] in Hortho, Heig.
  fold lam V in Hortho, Heig.
  assert (Hcov : forall p q,
            rsum (n_cols input) (fun k => elem (centred input) p k
                                          * elem (centred input) q k)
            = nv * elem (covariance_of input) p q).
  { intros p q. unfold covariance_of.
    rewrite ColumnCovariance_centred
      by (intros r; exact (@centred_row_sum input r Hn)).
    cbn [centred n_cols]. fold nv. field. lra. }
  rewrite (rsum_ext _
    (fun p => nv * (elem V p i * (elem lam j 0 * elem V p j)))).
  2:{ intros p Hp. rewrite <- (Heig p j Hp Hj).
      rewrite <- !rsum_scal_l. apply rsum_ext. intros q _.
      rewrite Hcov. unfold covariance_of. ring. }
  rewrite rsum_scal_l.
  rewrite (rsum_ext _ (fun p => elem lam j 0 * (elem V p i * elem V p j)))
    by (intros; ring).
  rewrite rsum_scal_l, (Hortho i j Hi Hj).
  change (1 / R_sqrt.sqrt (elem lam i 0 + epsilon self)) with (s i).
  change (1 / R_sqrt.sqrt (elem lam j 0 + epsilon self)) with (s j).
  generalize (s i) (s j). intros si sj.
  destruct (i =? j)%nat; field; lra.
Qed.

(** X10: with a regularization parameter above 0, on an input with at least
    one point, [Transform] returns a matrix of the shape of the input whose
    features have mean 0 and are uncorrelated; the variance of feature [i]
    is [l / (l + epsilon)] for the eigenvalue [l] of index [i], which is
    below 1: the covariance is not the identity.  (Over the real numbers,
    whatever the rank of the input.) *)
Theorem regularized_whitening :
  (0 < n_cols input)%nat ->
  0 < epsilon self ->
  exists st output,
    Transform eig_sym self input = Some (st, output) /\
    n_rows output = n_rows input /\ n_cols output = n_cols input /\
    (forall i j, (i < n_rows input)%nat -> (j < n_rows input)%nat ->
       let lam := elem (eigval_of eig_sym input) i 0 in
       elem (ColumnCovariance output) i j
         = (if (i =? j)%nat then lam / (lam + epsilon self) else 0) /\
       0 <= lam / (lam + epsilon self) < 1) /\
    forall i, (i < n_rows input)%nat -> elem (mean_rows output) i 0 = 0.
Proof.
  intros Hn Heps.
  destruct (Transform_some eig_sym self input Hn) as (st & output & Ht).
  exists st, output. split; [ exact Ht | ].
  destruct (whitened_shape contract _ Ht) as (Hr & Hc & _).
  split; [ exact Hr | ]. split; [ exact Hc | ]. split.
  - intros i j Hi Hj. cbv zeta.
    set (lam := elem (eigval_of eig_sym input) i 0).
    pose proof (eigenvalue_nonneg contract Hi) as Hge. fold lam in Hge.
    assert (Hpos : 0 < lam + epsilon self) by lra.
    split.
    + rewrite (whitened_covariance_entry Ht Hi Hj).
      destruct (Nat.eqb_spec i j) as [<- | _]; [ | ring ].
      fold lam.
      assert (Hsq : R_sqrt.sqrt (lam + epsilon self)
                    * R_sqrt.sqrt (lam + epsilon self) = lam + epsilon self)
        by (apply sqrt_sqrt; lra).
      assert (Hs0 : 0 < R_sqrt.sqrt (lam + epsilon self))
        by (apply sqrt_lt_R0; lra).
      rewrite <- Hsq at 3. field. lra.
    + split.
      * apply Rmult_le_pos; [ exact Hge | ].
        apply Rlt_le, Rinv_0_lt_compat, Hpos.
      * apply (Rmult_lt_reg_r (lam + epsilon self)); [ exact Hpos | ].
        unfold Rdiv. rewrite Rmult_assoc, Rinv_l by lra. lra.
  - intros i Hi. apply mean_rows_zero.
    apply (whitened_row_sum contract _ Ht Hi).
Qed.

End Regularized.

Section Inverse.
Local Open Scope R_scope.

Variable eig_sym : Mat R -> Mat R * Mat R.
Variable inv : Mat R -> Mat R.
Variable input : Mat R.
Hypothesis contract : eig_sym_ok eig_sym input.
Hypothesis inverse :
  is_inv (trans (eigvec_of eig_sym input))
         (inv (trans (eigvec_of eig_sym input))).
Variable self : @t R.

Lemma rsum_diag_r n i (f : nat -> R) :
  (i < n)%nat ->
  rsum n (fun k => f k * (if (k =? i)%nat then 1 else 0)) = f i.
Proof.
  intros Hi.
  rewrite (rsum_ext _ (fun k => (if (i =? k)%nat then 1 else 0) * f k)).
  - rewrite (rsum_diag _ _ Hi). ring.
  - intros k _. rewrite (Nat.eqb_sym k i). ring.
Qed.

(** The shape of the inverse, and that it is the matrix of eigenvectors. *)
Lemma inverse_shape :
  n_rows (inv (trans (eigvec_of eig_sym input))) = n_rows input /\
  n_cols (inv (trans (eigvec_of eig_sym input))) = n_rows input.
Proof.
  destruct inverse as (Hwr & Hwc & _).
  destruct contract as (_ & _ & _ & Hvc & _).
  cbn [covariance_of ColumnCovariance n_rows] in Hvc.
  cbn [trans n_rows] in Hwr, Hwc. rewrite Hvc in Hwr, Hwc. auto.
Qed.

Lemma inverse_is_eigvec i p :
  (i < n_rows input)%nat -> (p < n_rows input)%nat ->
  elem (inv (trans (eigvec_of eig_sym input))) i p
  = elem (eigvec_of eig_sym input) i p.
Proof.
  intros Hi Hp.
  destruct inverse_shape as (Hwr & Hwc).
  destruct inverse as (_ & _ & (_ & _ & Hleft) & _).
  destruct contract as (_ & _ & Hvr & Hvc & Hortho & _).
  cbn [covariance_of ColumnCovariance n_rows centred] in Hvr, Hvc, Hortho.
  set (V := eigvec_of eig_sym input) in *.
  set (W := inv (trans V)) in *.
  unfold eye_sized in Hleft.
  cbn [trans n_rows n_cols times elem mul zero one R_Scalar] in Hleft.
  rewrite ?Hwr, ?Hwc, ?Hvr, ?Hvc in Hleft.
  change (accu (n_rows input)) with (rsum (n_rows input)) in Hleft.
  set (n := n_rows input) in *.
  transitivity (rsum n (fun a => rsum n (fun q => elem W i q * elem V a q)
                                 * elem V a p)).
  - transitivity (rsum n (fun q => elem W i q
                                   * rsum n (fun a => elem V a q * elem V a p))).
    + rewrite (rsum_ext _ (fun q => elem W i q
                                    * (if (q =? p)%nat then 1 else 0))).
      * symmetry. apply (rsum_diag_r _ Hp).
      * intros q Hq. rewrite (Hortho q p Hq Hp). reflexivity.
    + rewrite (rsum_ext _ (fun q => rsum n (fun a =>
                 elem W i q * elem V a q * elem V a p))).
      2:{ intros q _. rewrite <- rsum_scal_l. apply rsum_ext.
          intros a _. ring. }
      rewrite rsum_swap. apply rsum_ext. intros a _.
      rewrite <- rsum_scal_r. reflexivity.
  - rewrite (rsum_ext _ (fun a => (if (i =? a)%nat then 1 else 0)
                                  * elem V a p)).
    + rewrite (rsum_diag _ _ Hi). ring.
    + intros a Ha. rewrite (Hleft i a Hi Ha). reflexivity.
Qed.

(** What [InverseTransform] returns on the output of [Transform]. *)
Lemma restored_some st output :
  Transform eig_sym self input = Some (st, output) ->
  exists restored,
    InverseTransform inv st output = Some restored /\
    n_rows restored = n_rows input /\ n_cols restored = n_cols input /\
    forall i k, (i < n_rows input)%nat ->
      elem restored i k
      = R_sqrt.sqrt (elem (eigval_of eig_sym input) i 0 + epsilon self)
        * rsum (n_rows input)
               (fun p => elem (eigvec_of eig_sym input) i p * elem output p k)
        + elem (mean_rows input) i 0.
Proof.
  intros Ht.
  destruct (whitened_shape contract _ Ht) as (Hyr & Hyc & Hne).
  destruct (Transform_inv _ _ _ Ht) as (Hn & Hst & _).
  destruct inverse_shape as (Hwr & Hwc).
  subst st. unfold InverseTransform, each_col.
  cbn [itemMean eigenValues eigenVectors epsilon] in *.
  cbn [times diagmat map1 n_rows n_cols mean_rows].
  unfold n_elem in *. cbn [map1 n_rows n_cols] in *.
  rewrite Hne, Nat.eqb_refl.
  destruct (Nat.eqb_spec (n_cols input) 0) as [E | _]; [ lia | ].
  cbn [Nat.eqb andb]. eexists. split; [ reflexivity | ].
  cbn [n_rows n_cols elem]. split; [ reflexivity | ]. split; [ exact Hyc | ].
  intros i k Hi. cbn [add mul zero R_Scalar]. f_equal.
  cbn [times diagmat map1 elem n_rows n_cols mul zero sqrt R_Scalar].
  unfold n_elem. cbn [map1 n_rows n_cols].
  rewrite Hwc, Hne. change (accu (n_rows input)) with (rsum (n_rows input)).
  rewrite <- rsum_scal_l. apply rsum_ext. intros p Hp.
  change (accu (n_rows input)) with (rsum (n_rows input)).
  rewrite (rsum_diag _ _ Hi), (inverse_is_eigvec Hi Hp). ring.
Qed.

(** X12: on an input with at least one point whose eigenvalues stay above
    0 with the regularization added, so that [Transform] divides by no 0,
    [InverseTransform] applied to what [Transform] returns gives a matrix of
    the shape of the input whose features have the means of the input's,
    whatever else it does to the data.  (Over the real numbers.) *)
Theorem round_trip_keeps_means :
  (0 < n_cols input)%nat ->
  (forall i, (i < n_rows input)%nat ->
     0 < elem (eigval_of eig_sym input) i 0 + epsilon self) ->
  exists st output restored,
    Transform eig_sym self input = Some (st, output) /\
    InverseTransform inv st output = Some restored /\
    n_rows restored = n_rows input /\ n_cols restored = n_cols input /\
    forall i, (i < n_rows input)%nat ->
      elem (mean_rows restored) i 0 = elem (mean_rows input) i 0.
Proof.
  intros Hcols _.
  destruct (Transform_some eig_sym self input Hcols) as (st & output & Ht).
  destruct (restored_some Ht) as (restored & Hr & Hrr & Hrc & Hel).
  exists st, output, restored. repeat (split; [ assumption | ]).
  intros i Hi. destruct (Transform_inv _ _ _ Ht) as (Hn & _ & _).
  destruct (whitened_shape contract _ Ht) as (_ & Hyc & _).
  unfold mean_rows at 1. cbn [elem div of_nat R_Scalar]. rewrite Hrc.
  change (accu (n_cols input)) with (rsum (n_cols input)).
  rewrite (rsum_ext _ _ (fun k _ => Hel i k Hi)).
  rewrite rsum_plus, rsum_scal_l, rsum_swap, rsum_const.
  rewrite (rsum_ext _ (fun _ => 0)), rsum_zero.
  - assert (INR (n_cols input) <> 0) by (apply not_0_INR; lia).
    field. assumption.
  - intros p Hp. rewrite rsum_scal_l.
    pose proof (whitened_row_sum contract _ Ht Hp) as Hs.
    rewrite Hyc in Hs.
    match goal with
    | |- _ * ?x = 0 => replace x with 0 by (symmetry; exact Hs)
    end.
    ring.
Qed.

(** X13: the round trip restores the input when no eigenvector has weight
    on a feature whose eigenvalue is another one (the matrix of
    eigenvectors then commutes with the diagonal matrix of the eigenvalues):
    so when the features are uncorrelated with their variances in ascending
    order, or when all eigenvalues are equal.  (Over the real numbers, for
    eigenvalues that stay above 0 with the regularization added.) *)
Theorem round_trip_when_commuting :
  (0 < n_cols input)%nat ->
  (forall i, (i < n_rows input)%nat ->
     0 < elem (eigval_of eig_sym input) i 0 + epsilon self) ->
  (forall i p, (i < n_rows input)%nat -> (p < n_rows input)%nat ->
     elem (eigvec_of eig_sym input) i p = 0 \/
     elem (eigval_of eig_sym input) i 0 = elem (eigval_of eig_sym input) p 0) ->
  exists st output restored,
    Transform eig_sym self input = Some (st, output) /\
    InverseTransform inv st output = Some restored /\
    mat_eq restored input.
Proof.
  intros Hcols Hpos Hcomm.
  destruct (Transform_some eig_sym self input Hcols) as (st & output & Ht).
  destruct (restored_some Ht) as (restored & Hr & Hrr & Hrc & Hel).
  exists st, output, restored. split; [ exact Ht | ]. split; [ exact Hr | ].
  split; [ exact Hrr | ]. split; [ exact Hrc | ].
  rewrite Hrr, Hrc. intros i k Hi Hk. rewrite (Hel i k Hi).
  set (lam := eigval_of eig_sym input) in *.
  set (V := eigvec_of eig_sym input) in *.
  set (n := n_rows input) in *.
  assert (Hrow : forall a, (a < n)%nat ->
            rsum n (fun p => elem V i p * elem V a p)
            = if (i =? a)%nat then 1 else 0).
  { intros a Ha.
    destruct inverse as (_ & _ & (_ & _ & Hleft) & _).
    destruct inverse_shape as (Hwr & Hwc).
    destruct contract as (_ & _ & Hvr & Hvc & _).
    cbn [covariance_of ColumnCovariance n_rows centred] in Hvr, Hvc.
    unfold eye_sized in Hleft.
    cbn [trans n_rows n_cols times elem mul zero one R_Scalar] in Hleft.
    fold V in Hleft, Hwr, Hwc, Hvr, Hvc.
    rewrite ?Hwr, ?Hwc, ?Hvr, ?Hvc in Hleft.
    rewrite <- (Hleft i a Hi Ha).
    change (accu (n_rows input)) with (rsum n).
    apply rsum_ext. intros p Hp.
    f_equal. symmetry. apply (inverse_is_eigvec Hi Hp). }
  transitivity (rsum n (fun a => (if (i =? a)%nat then 1 else 0)
                                 * elem (centred input) a k)
                + elem (mean_rows input) i 0).
  2:{ rewrite (rsum_diag _ _ Hi). unfold centred. cbn [elem]. ring. }
  f_equal.
  transitivity (rsum n (fun p => elem V i p
                  * rsum n (fun a => elem V a p * elem (centred input) a k))).
  - rewrite <- rsum_scal_l. apply rsum_ext. intros p Hp.
    rewrite (whitened_elem contract _ k Ht Hp). fold lam V n.
    pose proof (Hpos i Hi) as Hi0. pose proof (Hpos p Hp) as Hp0.
    assert (Hsp : 0 < R_sqrt.sqrt (elem lam p 0 + epsilon self))
      by (apply sqrt_lt_R0; exact Hp0).
    destruct (Hcomm i p Hi Hp) as [Hz | He].
    + rewrite Hz. ring.
    + rewrite He. field. lra.
  - rewrite (rsum_ext _ (fun p => rsum n (fun a =>
               elem V i p * elem V a p * elem (centred input) a k))).
    2:{ intros p _. rewrite <- rsum_scal_l. apply rsum_ext.
        intros a _. ring. }
    rewrite rsum_swap. apply rsum_ext. intros a Ha.
    rewrite rsum_scal_r, (Hrow a Ha). reflexivity.
Qed.

End Inverse.

Section Translation.
Local Open Scope R_scope.

Variable eig_sym : Mat R -> Mat R * Mat R.
Variable self : @t R.

(** X11: whitening ignores a translation of the points.  When a vector is
    added to every point of an input with at least one point, [Transform]
    returns the same whitened matrix and keeps the same eigenvalues and
    eigenvectors; only the means it stores move, by the vector.  (Over the
    real numbers.) *)
Theorem whitening_ignores_translation input c shifted :
  (0 < n_cols input)%nat ->
  each_col add input c = Some shifted ->
  exists st output st',
    Transform eig_sym self input = Some (st, output) /\
    Transform eig_sym self shifted = Some (st', output) /\
    eigenValues st' = eigenValues st /\
    eigenVectors st' = eigenVectors st /\
    forall i, elem (itemMean st') i 0 = elem (itemMean st) i 0 + elem c i 0.
Proof.
  intros Hn Hs. unfold each_col in Hs.
  destruct (_ && _); [ | discriminate ]. injection Hs as Hs.
  assert (Hsr : n_rows shifted = n_rows input) by (rewrite <- Hs; reflexivity).
  assert (Hsc : n_cols shifted = n_cols input) by (rewrite <- Hs; reflexivity).
  assert (Hse : forall i j, elem shifted i j = elem input i j + elem c i 0)
    by (rewrite <- Hs; reflexivity).
  clear Hs.
  assert (Hmean : forall i, elem (mean_rows shifted) i 0
                            = elem (mean_rows input) i 0 + elem c i 0).
  { intros i. unfold mean_rows. cbn [elem div of_nat R_Scalar]. rewrite Hsc.
    change (accu (n_cols input)) with (rsum (n_cols input)).
    rewrite (rsum_ext _ _ (fun k _ => Hse i k)), rsum_plus, rsum_const.
    assert (INR (n_cols input) <> 0) by (apply not_0_INR; lia).
    change (fun k : nat => elem input i k) with (elem input i).
    field. assumption. }
  assert (Hc : centred shifted = centred input).
  { unfold centred. rewrite Hsr, Hsc. f_equal.
    extensionality i. extensionality j. rewrite Hmean, Hse. ring. }
  assert (Hn' : (0 < n_cols shifted)%nat) by (rewrite Hsc; exact Hn).
  unfold Transform.
  rewrite (each_col_sub_mean input Hn), (each_col_sub_mean shifted Hn'), Hc.
  destruct (eig_sym (ColumnCovariance (centred input))) as [lam V].
  eexists _, _, _. split; [ reflexivity | ]. split; [ reflexivity | ].
  cbn [eigenValues eigenVectors itemMean].
  split; [ reflexivity | ]. split; [ reflexivity | ]. exact Hmean.
Qed.

End Translation.


(** ** Sample runs of the whitening *)

Section WhiteningRuns.
Local Open Scope R_scope.

Ltac two_rows i H :=
  destruct i as [| [| i]]; [ | | exfalso; cbn in H; lia ].

Lemma uncorrelated_covariance :
  elem (covariance_of uncorrelated) 0 0 = 4 / 3 /\
  elem (covariance_of uncorrelated) 0 1 = 0 /\
  elem (covariance_of uncorrelated) 1 0 = 0 /\
  elem (covariance_of uncorrelated) 1 1 = 16 / 3.
Proof.
  unfold covariance_of, ColumnCovariance, centred, mean_rows, uncorrelated.
  cbn. repeat split; field.
Qed.

Lemma uncorrelated_eig_sym_ok : eig_sym_ok uncorrelated_eig_sym uncorrelated.
Proof.
  destruct uncorrelated_covariance as (C00 & C01 & C10 & C11).
  unfold eig_sym_ok, is_eig_sym, eigval_of, eigvec_of, uncorrelated_eig_sym.
  cbn [fst snd]. cbv zeta.
  change (n_rows (covariance_of uncorrelated)) with 2%nat.
  repeat split; try reflexivity.
  - intros i j Hi Hj. two_rows i Hi; two_rows j Hj; cbn; field.
  - intros a j Ha Hj. rewrite !rsum_S, rsum_0.
    two_rows a Ha; two_rows j Hj;
      rewrite ?C00, ?C01, ?C10, ?C11; cbn; field.
  - intros i j Hij Hj. two_rows j Hj; destruct i as [| [| i]];
      try lia; cbn; lra.
Qed.

Lemma uncorrelated_inv_ok :
  is_inv (trans uncorrelated_eigvec)
         (uncorrelated_inv (trans uncorrelated_eigvec)).
Proof.
  unfold is_inv, mat_eq, uncorrelated_inv. cbn [trans n_rows n_cols times
    eye_sized uncorrelated_eigvec of_rows List.length hd].
  repeat split; try reflexivity;
    intros r c Hr Hc; two_rows r Hr; two_rows c Hc; cbn; field.
Qed.

Lemma regularized_whitening_witness :
  let self := make (1 / 20000) in
  exists st output,
    Transform correlated_eig_sym self correlated = Some (st, output) /\
    n_rows output = n_rows correlated /\
    n_cols output = n_cols correlated /\
    (forall i j, (i < n_rows correlated)%nat -> (j < n_rows correlated)%nat ->
       let lam := elem (eigval_of correlated_eig_sym correlated) i 0 in
       elem (ColumnCovariance output) i j
         = (if (i =? j)%nat then lam / (lam + epsilon self) else 0) /\
       0 <= lam / (lam + epsilon self) < 1) /\
    forall i, (i < n_rows correlated)%nat -> elem (mean_rows output) i 0 = 0.
Proof.
  cbv zeta.
  apply (@regularized_whitening correlated_eig_sym correlated
           correlated_eig_sym_ok (make (1 / 20000))).
  - cbn. lia.
  - cbn. lra.
Defined.

Lemma whitening_ignores_translation_witness :
  exists st output st',
    Transform correlated_eig_sym (make (1 / 20000)) correlated
      = Some (st, output) /\
    Transform correlated_eig_sym (make (1 / 20000)) correlated_shifted
      = Some (st', output) /\
    eigenValues st' = eigenValues st /\
    eigenVectors st' = eigenVectors st /\
    forall i, elem (itemMean st') i 0 = elem (itemMean st) i 0
                                        + elem offsets i 0.
Proof.
  apply (@whitening_ignores_translation correlated_eig_sym
           (make (1 / 20000)) correlated offsets correlated_shifted).
  - cbn. lia.
  - reflexivity.
Defined.

Lemma round_trip_keeps_means_witness :
  exists st output restored,
    Transform correlated_eig_sym (make (1 / 20000)) correlated
      = Some (st, output) /\
    InverseTransform correlated_inv st output = Some restored /\
    n_rows restored = n_rows correlated /\
    n_cols restored = n_cols correlated /\
    forall i, (i < n_rows correlated)%nat ->
      elem (mean_rows restored) i 0 = elem (mean_rows correlated) i 0.
Proof.
  apply (@round_trip_keeps_means correlated_eig_sym correlated_inv correlated
           correlated_eig_sym_ok correlated_inv_ok (make (1 / 20000))).
  - cbn. lia.
  - intros i Hi. two_rows i Hi; cbn; lra.
Defined.

Lemma round_trip_when_commuting_witness :
  exists st output restored,
    Transform uncorrelated_eig_sym (make (1 / 20000)) uncorrelated
      = Some (st, output) /\
    InverseTransform uncorrelated_inv st output = Some restored /\
    mat_eq restored uncorrelated.
Proof.
  apply (@round_trip_when_commuting uncorrelated_eig_sym uncorrelated_inv
           uncorrelated uncorrelated_eig_sym_ok uncorrelated_inv_ok
           (make (1 / 20000))).
  - cbn. lia.
  - intros i Hi. two_rows i Hi; cbn; lra.
  - intros i p Hi Hp. two_rows i Hi; two_rows p Hp; cbn;
      first [ left; reflexivity | right; reflexivity ].
Defined.

End WhiteningRuns.
